(** * cpp_browser_game_loop: a shallow embedding of [main.cpp]

    The program is a single-connection HTTP server that keeps one
    [Canvas] (a 256x256 RGBA raster) and one [Hero] (a float position),
    advances the hero from the key-state body of every POST and answers
    with the serialised raster.

    Conventions of the embedding:
    - [int] is a [Z] with two's-complement wrap-around to 32 bits written
      out at every arithmetic operation (module [Int]); signed overflow,
      which C++ leaves undefined, is given its wrapped result;
    - [size_t] is a [Z] reduced modulo [2^64];
    - [float] is IEEE-754 binary32, through the Standard Library's
      [SpecFloat] at precision 24 and maximal exponent 128;
    - indexing outside a container ([std::string_view::operator[]],
      [std::vector::operator[]]) has no defined result in C++: the
      embedding returns [Undefined]; library calls that throw return
      [Throw]. *)

From Stdlib Require Import ZArith String Ascii Bool Lia List.
From Stdlib Require Import Floats.SpecFloat.
From Stdlib Require Import Numbers.DecimalString Numbers.DecimalZ Numbers.DecimalPos.
Import ListNotations.

Local Open Scope Z_scope.

(* ===================================================================== *)
(** * Results of fallible code                                            *)
(* ===================================================================== *)

Inductive Exception := length_error | out_of_range.

Inductive Result (A : Type) : Type :=
| Ok (a : A)
| Throw (e : Exception)
| Undefined.

Arguments Ok {A} a.
Arguments Throw {A} e.
Arguments Undefined {A}.

Definition bind {A B} (r : Result A) (k : A -> Result B) : Result B :=
  match r with
  | Ok a => k a
  | Throw e => Throw e
  | Undefined => Undefined
  end.

Notation "x <- c ;; k" := (bind c (fun x => k))
  (at level 61, c at next level, right associativity).

(** [for (int i = lo; i < hi; ++i) body]: the values the loop variable
    takes ([i + 1] never leaves the [int] range, since [i < hi]). *)
Definition range (lo hi : Z) : list Z :=
  map (fun k => lo + Z.of_nat k) (seq 0 (Z.to_nat (hi - lo))).

Fixpoint for_each {I S : Type} (l : list I) (body : I -> S -> Result S) (s : S)
  : Result S :=
  match l with
  | [] => Ok s
  | i :: l' => s' <- body i s ;; for_each l' body s'
  end.

(* ===================================================================== *)
(** * Machine integers                                                    *)
(* ===================================================================== *)

Module Int.
Definition min_int : Z := -2147483648.
Definition max_int : Z := 2147483647.

Definition in_range (z : Z) : Prop := min_int <= z <= max_int.

(** Reduction to the signed 32-bit range. *)
Definition wrap (z : Z) : Z := (z + 2147483648) mod 4294967296 - 2147483648.

Definition add (a b : Z) : Z := wrap (a + b).
Definition sub (a b : Z) : Z := wrap (a - b).
Definition mul (a b : Z) : Z := wrap (a * b).
End Int.

Module SizeT.
Definition modulus : Z := 18446744073709551616.
Definition npos : Z := modulus - 1.
Definition wrap (z : Z) : Z := z mod modulus.
Definition add (a b : Z) : Z := wrap (a + b).
(** Conversion of a signed value ([ssize_t], [int]) to [size_t]. *)
Definition of_signed (z : Z) : Z := wrap z.
End SizeT.

(** [std::min(a, b)]: [(b < a) ? b : a]. *)
Definition std_min (a b : Z) : Z := if b <? a then b else a.

(** [std::clamp(v, lo, hi)]: [(v < lo) ? lo : (hi < v) ? hi : v]. *)
Definition std_clamp (v lo hi : Z) : Z :=
  if v <? lo then lo else if hi <? v then hi else v.

(* ===================================================================== *)
(** * Strings                                                             *)
(* ===================================================================== *)

Definition CR : ascii := "013"%char.
Definition LF : ascii := "010"%char.
Definition DQ : ascii := "034"%char.
Definition CRLF : string := String CR (String LF EmptyString).

(** [std::to_string] of a non-negative [int] or [size_t]: its decimal
    digits. *)
Definition to_string (n : Z) : string := NilZero.string_of_int (Z.to_int n).

(** [s.find(pat)]: the position of the first occurrence of [pat] in
    [s], [npos] when there is none. *)
Definition find (s pat : string) : Z :=
  match index 0 pat s with
  | Some i => Z.of_nat i
  | None => SizeT.npos
  end.

(** [s.substr(pos, count)]: throws [std::out_of_range] when
    [pos > s.size()], else the characters from [pos], at most [count]. *)
Definition substr (s : string) (pos count : Z) : Result string :=
  let size := Z.of_nat (String.length s) in
  if size <? pos then Throw out_of_range
  else Ok (substring (Z.to_nat pos) (Z.to_nat (Z.min count (size - pos))) s).

(* ===================================================================== *)
(** * Color and Canvas                                                    *)
(* ===================================================================== *)

Module Color.
(** [uint32_t data], kept as its object representation: the four
    bytes the constructor stores through [reinterpret_cast], in
    memory order. [setPixel] copies these four bytes unchanged. *)
Record t := { data : Z * Z * Z * Z }.

Definition make (r g b : Z) : t := {| data := (r, g, b, 255) |}.
Definition default : t := make 0 0 0.

Definition bytes (c : t) : list Z :=
  let '(b0, b1, b2, b3) := data c in [b0; b1; b2; b3].
End Color.

Module Canvas.
Definition WIDTH : Z := 256.
Definition HEIGHT : Z := 256.
Definition DEPTH : Z := 4.

(** [std::vector<uint8_t> data]. *)
Record t := { data : list Z }.

Definition size (cv : t) : Z := Z.of_nat (length (data cv)).

(** [Canvas() { data.resize(WIDTH * HEIGHT * DEPTH); }] *)
Definition make : t :=
  {| data := repeat 0 (Z.to_nat (WIDTH * HEIGHT * DEPTH)) |}.

(** The four-byte store of [setPixel] at byte offset [idx]. *)
Definition store (idx : nat) (bytes : list Z) (d : list Z) : list Z :=
  firstn idx d ++ bytes ++ skipn (idx + length bytes) d.

(** [setPixel] (main.cpp:68-70): a four-byte store at
    [&data[(x + y * WIDTH) * DEPTH]], unchecked; a store that is not
    inside the vector has no defined result. *)
Definition setPixel (x y : Z) (c : Color.t) (cv : t) : Result t :=
  let idx := Int.mul (Int.add x (Int.mul y WIDTH)) DEPTH in
  if (0 <=? idx) && (idx + 4 <=? size cv)
  then Ok {| data := store (Z.to_nat idx) (Color.bytes c) (data cv) |}
  else Undefined.

(** [drawRect] (main.cpp:71-81). *)
Definition drawRect (x y w h : Z) (c : Color.t) (cv : t) : Result t :=
  let cx := std_clamp x 0 WIDTH in
  let cy := std_clamp y 0 HEIGHT in
  let cw := Int.sub (std_min (Int.add x w) WIDTH) cx in
  let ch := Int.sub (std_min (Int.add y h) HEIGHT) cy in
  for_each (range cy (Int.add cy ch))
    (fun yi cv =>
       for_each (range cx (Int.add cx cw))
         (fun xi cv => setPixel xi yi c cv) cv)
    cv.

(** The iteration space of the loop nest of [drawRect], in the order
    the loops visit it: the pixels handed to [setPixel]. *)
Definition drawRect_pixels (x y w h : Z) : list (Z * Z) :=
  let cx := std_clamp x 0 WIDTH in
  let cy := std_clamp y 0 HEIGHT in
  let cw := Int.sub (std_min (Int.add x w) WIDTH) cx in
  let ch := Int.sub (std_min (Int.add y h) HEIGHT) cy in
  flat_map (fun yi => map (fun xi => (xi, yi)) (range cx (Int.add cx cw)))
    (range cy (Int.add cy ch)).

(** Byte offsets written by [setPixel x y]. *)
Definition pixel_bytes (p : Z * Z) : list Z :=
  let idx := Int.mul (Int.add (fst p) (Int.mul (snd p) WIDTH)) DEPTH in
  [idx; idx + 1; idx + 2; idx + 3].

(** [clear] (main.cpp:82-84). *)
Definition clear (cv : t) : Result t :=
  drawRect 0 0 WIDTH HEIGHT (Color.make 0 0 0) cv.

(** The loop of [toString] (main.cpp:85-92): [i] runs over the indices
    of [data]; a comma follows every element but the one at
    [data.size() - 1]. *)
Definition toString_loop (d : list Z) : string :=
  fold_left
    (fun str i =>
       let str := (str ++ to_string (nth i d 0))%string in
       if (Z.of_nat i =? Z.of_nat (length d) - 1) then str
       else (str ++ ",")%string)
    (seq 0 (length d)) EmptyString.

Definition toString (cv : t) : string :=
  ("[" ++ toString_loop (data cv) ++ "]")%string.

(** Reading one byte of the backing store (specification side). *)
Definition byte_at (cv : t) (i : Z) : Z := nth (Z.to_nat i) (data cv) 0.

(** The canvas has the size its constructor gives it. *)
Definition wf (cv : t) : Prop := size cv = WIDTH * HEIGHT * DEPTH.

(** Pixel coordinates inside the raster. *)
Definition inside (p : Z * Z) : Prop :=
  0 <= fst p < WIDTH /\ 0 <= snd p < HEIGHT.

(** The rectangle [x, x+w) x [y, y+h) has no pixel inside the raster. *)
Definition rect_outside (x y w h : Z) : Prop :=
  forall px py, x <= px < x + w -> y <= py < y + h -> ~ inside (px, py).
End Canvas.

(* ===================================================================== *)
(** * Key state                                                           *)
(* ===================================================================== *)

Inductive KeyCode := ArrowLeft | ArrowUp | ArrowRight | ArrowDown.

(** [int(keyCode)] *)
Definition KeyCode_int (k : KeyCode) : Z :=
  match k with
  | ArrowLeft => 37
  | ArrowUp => 38
  | ArrowRight => 39
  | ArrowDown => 40
  end.

(** [isKeyDown] (main.cpp:48-50): [requestBody[int(keyCode)] == '1'].
    [operator[]] of a [std::string_view] does not check its index: at
    or beyond the size the read has no defined result. *)
Definition isKeyDown (requestBody : string) (keyCode : KeyCode) : Result bool :=
  match get (Z.to_nat (KeyCode_int keyCode)) requestBody with
  | Some ch => Ok (Ascii.eqb ch "1")
  | None => Undefined
  end.

(* ===================================================================== *)
(** * binary32                                                            *)
(* ===================================================================== *)

Module F32.
Definition prec : Z := 24.
Definition emax : Z := 128.

Definition add : spec_float -> spec_float -> spec_float := SFadd prec emax.
Definition sub : spec_float -> spec_float -> spec_float := SFsub prec emax.
Definition mul : spec_float -> spec_float -> spec_float := SFmul prec emax.

(** Conversion [int -> float] (round to nearest, ties to even). *)
Definition of_int (z : Z) : spec_float := binary_normalize prec emax z 0 false.

(** Conversion [float -> int]: truncation toward zero; no defined
    result when the truncated value is not an [int]. *)
Definition to_int (f : spec_float) : Result Z :=
  match f with
  | S754_zero _ => Ok 0
  | S754_finite s m e =>
      let mag := Z.shiftl (Z.pos m) e in
      let v := if s then - mag else mag in
      if (Int.min_int <=? v) && (v <=? Int.max_int) then Ok v else Undefined
  | _ => Undefined
  end.

(** The literals of the program. *)
Definition lit_0_5 : spec_float := S754_finite false 8388608 (-24).
Definition lit_2_0 : spec_float := S754_finite false 8388608 (-22).
Definition lit_4_0 : spec_float := S754_finite false 8388608 (-21).
Definition lit_8_0 : spec_float := S754_finite false 8388608 (-20).

(** The value of a finite binary32 (specification side). Every finite
    binary32 is a multiple of [2^-149]: [scaled f] is the real value of
    [f] times [2^149], an integer. *)
Definition scaled (f : spec_float) : option Z :=
  match f with
  | S754_zero _ => Some 0
  | S754_finite s m e => Some (cond_Zopp s (Z.pos m) * 2 ^ (e + 149))
  | _ => None
  end.

(** The integer [n] fits a binary32 mantissa at its exponent. *)
Definition representable (n : Z) : Prop :=
  let t := Z.log2 (Z.abs n) + 1 - 24 in
  t <= 104 /\ (t <= 0 \/ exists q, Z.abs n = q * 2 ^ t).

(** The binary32 of a representable integer, in normal form. *)
Definition exact (n : Z) : spec_float :=
  match n with
  | 0 => S754_zero false
  | _ =>
      let a := Z.abs n in
      let t := Z.log2 a + 1 - 24 in
      S754_finite (n <? 0)
        (Z.to_pos (if t <=? 0 then a * 2 ^ (- t) else a / 2 ^ t)) t
  end.
End F32.

(* ===================================================================== *)
(** * Hero                                                                *)
(* ===================================================================== *)

Module Hero.
Record t := { x_ : spec_float; y_ : spec_float }.

(** [float x_{0.5f * Canvas::WIDTH}; float y_{0.5f * Canvas::HEIGHT};] *)
Definition init : t :=
  {| x_ := F32.mul F32.lit_0_5 (F32.of_int Canvas.WIDTH);
     y_ := F32.mul F32.lit_0_5 (F32.of_int Canvas.HEIGHT) |}.

(** [Hero::update] (main.cpp:99-105). *)
Definition update (requestBody : string) (h : t) : Result t :=
  let spd := F32.lit_8_0 in
  l <- isKeyDown requestBody ArrowLeft ;;
  let h := if l then {| x_ := F32.sub (x_ h) spd; y_ := y_ h |} else h in
  u <- isKeyDown requestBody ArrowUp ;;
  let h := if u then {| x_ := x_ h; y_ := F32.sub (y_ h) spd |} else h in
  r <- isKeyDown requestBody ArrowRight ;;
  let h := if r then {| x_ := F32.add (x_ h) spd; y_ := y_ h |} else h in
  d <- isKeyDown requestBody ArrowDown ;;
  let h := if d then {| x_ := x_ h; y_ := F32.add (y_ h) spd |} else h in
  Ok h.

(** [Hero::draw] (main.cpp:106-109): the four [float] arguments are
    converted to the [int] parameters of [drawRect]. *)
Definition draw (h : t) (cv : Canvas.t) : Result Canvas.t :=
  let r := F32.lit_4_0 in
  x <- F32.to_int (F32.sub (x_ h) r) ;;
  y <- F32.to_int (F32.sub (y_ h) r) ;;
  w <- F32.to_int (F32.mul F32.lit_2_0 r) ;;
  h <- F32.to_int (F32.mul F32.lit_2_0 r) ;;
  Canvas.drawRect x y w h (Color.make 255 0 0) cv.
End Hero.

(* ===================================================================== *)
(** * The process state and the request handler                           *)
(* ===================================================================== *)

(** The two globals [canvas] and [hero]. *)
Record World := { canvas : Canvas.t; hero : Hero.t }.

Definition World_init : World :=
  {| canvas := Canvas.make; hero := Hero.init |}.

Local Open Scope string_scope.

(** [baseHTML] (main.cpp:21-39): the raw string literal, newline after
    the opening parenthesis included. *)
Definition baseHTML : string :=
  String LF "<!DOCTYPE html>" ++ String LF
  "<canvas width=" ++ String DQ "256" ++ String DQ " height=" ++ String DQ "256"
    ++ String DQ "></canvas>" ++ String LF
  "<script>" ++ String LF
  "  const keys = Array(256).fill(0);" ++ String LF
  "  onkeydown = (e) => keys[e.keyCode] = 1;" ++ String LF
  "  onkeyup = (e) => keys[e.keyCode] = 0;" ++ String LF
  "  onload = async () => {" ++ String LF
  "    while (true) {" ++ String LF
  "      const res = await fetch(" ++ String DQ "/" ++ String DQ ", { method: "
    ++ String DQ "POST" ++ String DQ ", body: keys.join(" ++ String DQ
    (String DQ ") });") ++ String LF
  "      const json = await res.json();" ++ String LF
  "      const canvas = document.querySelector(" ++ String DQ "canvas"
    ++ String DQ ");" ++ String LF
  "      const ctx = canvas.getContext(" ++ String DQ "2d" ++ String DQ ");"
    ++ String LF
  "      const imageData = new ImageData(new Uint8ClampedArray(json), 256);"
    ++ String LF
  "      ctx.putImageData(imageData, 0, 0);" ++ String LF
  "    }" ++ String LF
  "  };" ++ String LF
  "</script>" ++ String LF "".

(** The key state of the script of [baseHTML] (main.cpp:25-27):
    [const keys = Array(256).fill(0)], [keys[e.keyCode] = 1] on key
    down and [keys[e.keyCode] = 0] on key up. An assignment at or beyond
    the length of a JavaScript array grows the array, and the slots in
    between stay empty ([None]). *)
Inductive KeyEvent := KeyDown (keyCode : nat) | KeyUp (keyCode : nat).

Definition keys_init : list (option bool) := repeat (Some false) 256.

Definition keys_assign (i : nat) (v : bool) (keys : list (option bool))
  : list (option bool) :=
  if (i <? length keys)%nat
  then firstn i keys ++ Some v :: skipn (S i) keys
  else keys ++ repeat None (i - length keys) ++ [Some v].

Definition key_event (keys : list (option bool)) (e : KeyEvent)
  : list (option bool) :=
  match e with
  | KeyDown c => keys_assign c true keys
  | KeyUp c => keys_assign c false keys
  end.

(** [keys.join] with the empty separator (main.cpp:30): 1 and 0 print
    as their digit, an empty slot prints as nothing. *)
Definition keys_join (keys : list (option bool)) : string :=
  string_of_list_ascii
    (flat_map (fun slot => match slot with
                           | Some true => ["1"%char]
                           | Some false => ["0"%char]
                           | None => []
                           end) keys).

(** The request body the script sends after the key events [evs]. *)
Definition keysBody (evs : list KeyEvent) : string :=
  keys_join (fold_left key_event evs keys_init).

(** The request body the script sends when, since the page was loaded,
    the keys of [down] went down and none was released. *)
Definition keyStateBody (down : list nat) : string :=
  keysBody (map KeyDown down).

(** [update] (main.cpp:116-121). *)
Definition update (requestBody : string) (w : World) : Result (string * World) :=
  h <- Hero.update requestBody (hero w) ;;
  cv <- Canvas.clear (canvas w) ;;
  cv <- Hero.draw h cv ;;
  Ok (Canvas.toString cv, {| canvas := cv; hero := h |}).

(** [getRequestLine] (main.cpp:123-125). *)
Definition getRequestLine (request : string) : Result string :=
  substr request 0 (find request CRLF).

(** [getRequestBody] (main.cpp:127-130); [find(...) + 4] is [size_t]
    arithmetic. *)
Definition getRequestBody (request : string) : Result string :=
  requestLine <- getRequestLine request ;;
  if negb (find requestLine "POST" =? 0)%Z then Ok ""
  else substr request (SizeT.add (find request (CRLF ++ CRLF)) 4) SizeT.npos.

(** [createResponseBody] (main.cpp:132-142). *)
Definition createResponseBody (request : string) (w : World)
  : Result (string * World) :=
  requestLine <- getRequestLine request ;;
  if (find requestLine "GET / " =? 0)%Z then Ok (baseHTML, w)
  else if (find requestLine "POST / " =? 0)%Z then
    requestBody <- getRequestBody request ;;
    update requestBody w
  else Ok ("", w).

(** [createResponseHeader] (main.cpp:144-150). *)
Definition createResponseHeader (responseBodySize : Z) : string :=
  ("HTTP/1.1 200 OK" ++ CRLF) ++
  ("Content-Type: text/html" ++ CRLF) ++
  "Content-Length: " ++ to_string responseBodySize ++ CRLF.

(** [createResponse] (main.cpp:152-155). *)
Definition createResponse (request : string) (w : World)
  : Result (string * World) :=
  rb <- createResponseBody request w ;;
  let responseBody := fst rb in
  Ok (createResponseHeader (Z.of_nat (String.length responseBody))
        ++ CRLF ++ responseBody, snd rb).

Local Close Scope string_scope.

(* ===================================================================== *)
(** * The connection loops                                                *)
(* ===================================================================== *)

(** The loops talk to the operating system ([accept], [recv], [send],
    [close], the steady clock). The environment is a script: what each
    call returns and how much time passes meanwhile. The loops return
    how they ended, the process state and the calls they made. *)

Module Session.
(** [100ms], in the nanoseconds of [std::chrono::steady_clock]. Time
    points are unbounded integers. *)
Definition interval : Z := 100000000.

(** One call of [recv]: its return value, the bytes it left in the
    buffer, the time that passes until the response is computed, and
    by how much [sleep_until] wakes after its time point. *)
Record Recv := {
  readSize : Z;
  buffer : string;
  elapsed : N;
  overslept : N
}.

(** One call of [accept]: its return value and the reads of that
    connection. *)
Record Accept := { acceptedFd : Z; reads : list Recv }.

Inductive Event :=
| EvAccept (fd : Z)
| EvRecv (fd : Z) (readSize : Z)
| EvSleepUntil (timePoint : Z)
| EvSend (fd : Z) (response : string) (time : Z)
| EvClose (fd : Z)
| EvPerror
| EvPrint (msg : string).

Inductive Exit :=
| Returned                    (* the function returned *)
| Terminated (e : Exception)  (* uncaught exception: [std::terminate] *)
| NoDefinedBehaviour
| Starved.                    (* the script is exhausted: the call blocks *)

Record Proc := { world : World; now : Z }.

(** [std::vector<char>::max_size()] *)
Definition vector_max_size : Z := 9223372036854775807.

(** [buf.resize(n)]: throws [std::length_error] beyond [max_size()]. *)
Definition vector_resize (n : Z) : Result unit :=
  if vector_max_size <? n then Throw length_error else Ok tt.

(** The body of [while(1)] in [runReceiveSendLoop] (main.cpp:189-207),
    once per scripted [recv]. [buf.resize(readSize)] comes first, as in
    the source; the request is the first [readSize] bytes of the
    buffer. *)
Fixpoint receiveSendLoop (acceptedFd : Z) (nextSendTimePoint : Z)
         (script : list Recv) (p : Proc) : Exit * Proc * list Event :=
  match script with
  | [] => (Starved, p, [])
  | r :: script' =>
      let p := {| world := world p; now := now p + Z.of_N (elapsed r) |} in
      let ev := EvRecv acceptedFd (readSize r) in
      match vector_resize (SizeT.of_signed (readSize r)) with
      | Throw e => (Terminated e, p, [ev])
      | Undefined => (NoDefinedBehaviour, p, [ev])
      | Ok _ =>
          if readSize r =? -1 then (Returned, p, [ev; EvPerror])
          else if readSize r =? 0 then
            (Returned, p, [ev; EvPrint "Peer shutdown"])
          else
            let request := substring 0 (Z.to_nat (readSize r)) (buffer r) in
            match createResponse request (world p) with
            | Throw e => (Terminated e, p, [ev])
            | Undefined => (NoDefinedBehaviour, p, [ev])
            | Ok (response, w) =>
                let woke :=
                  Z.max (now p) nextSendTimePoint + Z.of_N (overslept r) in
                let p := {| world := w; now := woke |} in
                let '(exit, p', evs) :=
                  receiveSendLoop acceptedFd (nextSendTimePoint + interval)
                                  script' p in
                (exit, p',
                 ev :: EvSleepUntil nextSendTimePoint
                    :: EvSend acceptedFd response woke :: evs)
            end
      end
  end.

(** [auto nextSendTimePoint = std::chrono::steady_clock::now();] *)
Definition runReceiveSendLoop (acceptedFd : Z) (script : list Recv) (p : Proc)
  : Exit * Proc * list Event :=
  receiveSendLoop acceptedFd (now p) script p.

(** [runConnectionLoop] (main.cpp:210-220). *)
Fixpoint runConnectionLoop (script : list Accept) (p : Proc)
  : Exit * Proc * list Event :=
  match script with
  | [] => (Starved, p, [])
  | a :: script' =>
      if acceptedFd a =? -1 then (Returned, p, [EvAccept (-1); EvPerror])
      else
        match runReceiveSendLoop (acceptedFd a) (reads a) p with
        | (Returned, p', evs) =>
            let '(exit, p'', evs') := runConnectionLoop script' p' in
            (exit, p'',
             EvAccept (acceptedFd a) :: evs ++ EvClose (acceptedFd a) :: evs')
        | (exit, p', evs) => (exit, p', EvAccept (acceptedFd a) :: evs)
        end
  end.

(** The time points handed to [sleep_until], and the times of the
    calls of [send], in order. *)
Definition deadlines (evs : list Event) : list Z :=
  flat_map (fun e => match e with EvSleepUntil d => [d] | _ => [] end) evs.

Definition send_times (evs : list Event) : list Z :=
  flat_map (fun e => match e with EvSend _ _ t => [t] | _ => [] end) evs.
End Session.

(* ===================================================================== *)
(** * Socket set-up and [main]                                            *)
(* ===================================================================== *)

Module Setup.





End Setup.

(* ===================================================================== *)
(** * Specification-side definitions                                      *)
(* ===================================================================== *)

(** Byte offset of pixel [p] in the backing store. *)
Definition offset (p : Z * Z) : Z :=
  (fst p + snd p * Canvas.WIDTH) * Canvas.DEPTH.

(** Does byte offset [i] belong to pixel [p]? *)
Definition covers (i : Z) (p : Z * Z) : bool :=
  (offset p <=? i) && (i <? offset p + 4).

(** [setPixel] on each pixel of a list, in order. *)
Definition fill (pixels : list (Z * Z)) (c : Color.t) (cv : Canvas.t)
  : Result Canvas.t :=
  for_each pixels (fun p cv => Canvas.setPixel (fst p) (snd p) c cv) cv.

(** The four bytes of pixel [p] (specification side). *)
Definition pixel (cv : Canvas.t) (p : Z * Z) : list Z :=
  map (fun k => Canvas.byte_at cv (offset p + k)) [0; 1; 2; 3].

(** Is [p] in the clamped rectangle that [drawRect x y w h] fills? *)
Definition drawn (x y w h : Z) (p : Z * Z) : bool :=
  (std_clamp x 0 Canvas.WIDTH <=? fst p)
  && (fst p <? std_min (Int.add x w) Canvas.WIDTH)
  && (std_clamp y 0 Canvas.HEIGHT <=? snd p)
  && (snd p <? std_min (Int.add y h) Canvas.HEIGHT).

(** Row-major position [k] as pixel coordinates. *)
Definition pixel_of_index (k : nat) : Z * Z :=
  (Z.of_nat k mod Canvas.WIDTH, Z.of_nat k / Canvas.WIDTH).

(** [s] begins with [p] (specification side). *)
Definition starts_with (p s : string) : Prop :=
  exists rest, s = (p ++ rest)%string.

(** Is the key pressed, in the words of the protocol: the character at
    the position of the key code is '1'. *)
Definition pressed (body : string) (k : KeyCode) : bool :=
  match get (Z.to_nat (KeyCode_int k)) body with
  | Some ch => Ascii.eqb ch "1"
  | None => false
  end.

(** The displacement of one tick, for given key states. *)
Definition displace (l u r d : bool) (h : Hero.t) : Hero.t :=
  let x := if l then F32.sub (Hero.x_ h) F32.lit_8_0 else Hero.x_ h in
  let y := if u then F32.sub (Hero.y_ h) F32.lit_8_0 else Hero.y_ h in
  let x := if r then F32.add x F32.lit_8_0 else x in
  let y := if d then F32.add y F32.lit_8_0 else y in
  {| Hero.x_ := x; Hero.y_ := y |}.

(** [n] successive requests with the same body. *)
Definition ticks (body : string) (n : positive) (h : Hero.t) : Result Hero.t :=
  Pos.iter (fun r => h' <- r ;; Hero.update body h') (Ok h) n.

(** ** Definitions for the further properties *)

(** A computation that does not throw. *)
Definition no_throw {A} (r : Result A) : Prop := forall e, r <> Throw e.

(** The reads ([true]) and sends ([false]) of a list of calls, in
    order. *)
Definition io (evs : list Session.Event) : list bool :=
  flat_map (fun e => match e with
                     | Session.EvRecv _ _ => [true]
                     | Session.EvSend _ _ _ => [false]
                     | _ => []
                     end) evs.

(** The descriptors returned by [accept], and those handed to [close]. *)
Definition accepts (evs : list Session.Event) : list Z :=
  flat_map (fun e => match e with Session.EvAccept fd => [fd] | _ => [] end) evs.

Definition closes (evs : list Session.Event) : list Z :=
  flat_map (fun e => match e with Session.EvClose fd => [fd] | _ => [] end) evs.

(** One connection at a time. [cur] is the connection being served, if
    any: [accept] is called only when none is served, and a descriptor
    other than -1 then becomes the one served; [recv], [send] and
    [close] are called only on the connection served, and [close] ends
    its service. *)
Fixpoint one_at_a_time (cur : option Z) (evs : list Session.Event) : bool :=
  match evs with
  | [] => true
  | e :: evs' =>
      match e, cur with
      | Session.EvAccept fd, None =>
          one_at_a_time (if fd =? -1 then None else Some fd) evs'
      | Session.EvAccept _, Some _ => false
      | Session.EvRecv fd _, Some c => (fd =? c) && one_at_a_time cur evs'
      | Session.EvRecv _ _, None => false
      | Session.EvSend fd _ _, Some c => (fd =? c) && one_at_a_time cur evs'
      | Session.EvSend _ _ _, None => false
      | Session.EvClose fd, Some c => (fd =? c) && one_at_a_time None evs'
      | Session.EvClose _, None => false
      | Session.EvSleepUntil _, _ => one_at_a_time cur evs'
      | Session.EvPerror, _ => one_at_a_time cur evs'
      | Session.EvPrint _, _ => one_at_a_time cur evs'
      end
  end.

(** No comma in [s]. *)
Fixpoint no_comma (s : string) : bool :=
  match s with
  | EmptyString => true
  | String c s' => negb (Ascii.eqb c ",") && no_comma s'
  end.

(** A field of the serialised list: not empty, no comma. *)
Definition field (s : string) : Prop := no_comma s = true /\ s <> ""%string.

(** Is the key with code [k] in the list of keys held down? *)
Definition held (down : list nat) (k : KeyCode) : bool :=
  existsb (Nat.eqb (Z.to_nat (KeyCode_int k))) down.

(** The effect of one key event on whether the key [code] is down. *)
Definition key_step (code : nat) (b : bool) (e : KeyEvent) : bool :=
  match e with
  | KeyDown c => if (c =? code)%nat then true else b
  | KeyUp c => if (c =? code)%nat then false else b
  end.

(** Is the key [code] down after the events [evs]: the last event of
    that key, if any, was a key down. *)
Definition down_after (evs : list KeyEvent) (code : nat) : bool :=
  fold_left (key_step code) evs false.

(** The key code of an event. *)
Definition event_code (e : KeyEvent) : nat :=
  match e with KeyDown c => c | KeyUp c => c end.

(** The hero at cell [(i, j)]: position [(8 i, 8 j)]. *)
Definition at_cell (i j : Z) : Hero.t :=
  {| Hero.x_ := F32.of_int (8 * i); Hero.y_ := F32.of_int (8 * j) |}.

(** The hero is on the grid, at most [n] cells from the centre cell in
    each direction. *)
Definition near (n : Z) (h : Hero.t) : Prop :=
  exists i j, h = at_cell i j /\ Z.abs (i - 16) <= n /\ Z.abs (j - 16) <= n.

(** The number of scripted calls of [recv] over all connections. *)
Definition requests (script : list Session.Accept) : nat :=
  list_sum (map (fun a => length (Session.reads a)) script).

(* ===================================================================== *)
(** * Lemmas                                                              *)
(* ===================================================================== *)

(** Closes a goal that says a concrete-bounded value is an [int]. *)
Ltac int_range :=
  unfold Int.in_range, Int.min_int, Int.max_int in *; lia.

(** An iteration of the receive/send loop that ends without a [send]. *)
Ltac no_send := simpl; split; [reflexivity|constructor].

Lemma wrap_in_range z : Int.in_range z -> Int.wrap z = z.
Proof.
  unfold Int.in_range, Int.wrap, Int.min_int, Int.max_int. intros H.
  rewrite Z.mod_small; lia.
Qed.

Lemma wrap_range z : Int.in_range (Int.wrap z).
Proof.
  unfold Int.in_range, Int.wrap, Int.min_int, Int.max_int.
  pose proof (Z.mod_pos_bound (z + 2147483648) 4294967296). lia.
Qed.

Lemma wrap_add_wrap_r a b : Int.wrap (a + Int.wrap b) = Int.wrap (a + b).
Proof.
  unfold Int.wrap. f_equal.
  replace (a + ((b + 2147483648) mod 4294967296 - 2147483648) + 2147483648)
    with (a + (b + 2147483648) mod 4294967296) by lia.
  rewrite Zplus_mod_idemp_r. f_equal. lia.
Qed.

(** ** Loops *)

Lemma range_In lo hi i : In i (range lo hi) <-> lo <= i < hi.
Proof.
  unfold range. rewrite in_map_iff. split.
  - intros [k [<- Hk]]. apply in_seq in Hk. lia.
  - intros H. exists (Z.to_nat (i - lo)). split; [lia|].
    apply in_seq. lia.
Qed.

Lemma range_nil lo hi : hi <= lo -> range lo hi = [].
Proof.
  intros H. unfold range. replace (Z.to_nat (hi - lo)) with 0%nat by lia.
  reflexivity.
Qed.

Lemma for_each_app {I S} (l1 l2 : list I) (body : I -> S -> Result S) s :
  for_each (l1 ++ l2) body s = (s' <- for_each l1 body s ;; for_each l2 body s').
Proof.
  revert s. induction l1 as [|i l1 IH]; intros s; simpl; [reflexivity|].
  destruct (body i s); simpl; auto.
Qed.

Lemma for_each_map {I J S} (f : I -> J) (l : list I) (body : J -> S -> Result S) s :
  for_each (map f l) body s = for_each l (fun i => body (f i)) s.
Proof.
  revert s. induction l as [|i l IH]; intros s; simpl; [reflexivity|].
  destruct (body (f i) s); simpl; auto.
Qed.

Lemma for_each_flat_map {I J S} (f : I -> list J) (l : list I)
      (body : J -> S -> Result S) s :
  for_each (flat_map f l) body s = for_each l (fun i => for_each (f i) body) s.
Proof.
  revert s. induction l as [|i l IH]; intros s; simpl; [reflexivity|].
  rewrite for_each_app. destruct (for_each (f i) body s); simpl; auto.
Qed.

Lemma for_each_ext {I S} (l : list I) (f g : I -> S -> Result S) s :
  (forall i s, f i s = g i s) -> for_each l f s = for_each l g s.
Proof.
  intros H. revert s. induction l as [|i l IH]; intros s; simpl; [reflexivity|].
  rewrite H. destruct (g i s); simpl; auto.
Qed.

(** ** The loop bounds of [drawRect] *)

Lemma std_min_le_r a b : std_min a b <= b.
Proof. unfold std_min. destruct (Z.ltb_spec b a); lia. Qed.

Lemma std_min_le_l a b : std_min a b <= a.
Proof. unfold std_min. destruct (Z.ltb_spec b a); lia. Qed.

Lemma std_clamp_bounds v hi : 0 <= hi -> 0 <= std_clamp v 0 hi <= hi.
Proof.
  intros H. unfold std_clamp.
  destruct (Z.ltb_spec v 0); [lia|]. destruct (Z.ltb_spec hi v); lia.
Qed.

(** The end of either loop, [c + (min(v + len, hi) - c)] in [int]
    arithmetic, is [min(v + len, hi)] whatever wraps on the way. *)
Lemma loop_end v len hi :
  Int.in_range hi ->
  let c := std_clamp v 0 hi in
  Int.add c (Int.sub (std_min (Int.add v len) hi) c) = std_min (Int.add v len) hi.
Proof.
  intros Hhi c. unfold Int.add at 1, Int.sub.
  rewrite wrap_add_wrap_r.
  replace (c + (std_min (Int.add v len) hi - c)) with (std_min (Int.add v len) hi) by lia.
  apply wrap_in_range. unfold std_min.
  destruct (Z.ltb_spec hi (Int.add v len)); [assumption|apply wrap_range].
Qed.

Lemma WIDTH_in_range : Int.in_range Canvas.WIDTH.
Proof. unfold Int.in_range, Int.min_int, Int.max_int, Canvas.WIDTH. lia. Qed.

Lemma HEIGHT_in_range : Int.in_range Canvas.HEIGHT.
Proof. unfold Int.in_range, Int.min_int, Int.max_int, Canvas.HEIGHT. lia. Qed.

Lemma drawRect_pixels_In x y w h p :
  In p (Canvas.drawRect_pixels x y w h) <->
  std_clamp x 0 Canvas.WIDTH <= fst p < std_min (Int.add x w) Canvas.WIDTH /\
  std_clamp y 0 Canvas.HEIGHT <= snd p < std_min (Int.add y h) Canvas.HEIGHT.
Proof.
  unfold Canvas.drawRect_pixels.
  rewrite (loop_end x w _ WIDTH_in_range), (loop_end y h _ HEIGHT_in_range).
  rewrite in_flat_map. split.
  - intros [yi [Hy Hp]]. apply in_map_iff in Hp. destruct Hp as [xi [<- Hx]].
    apply range_In in Hx, Hy. simpl. lia.
  - intros [Hx Hy]. exists (snd p). split; [apply range_In; lia|].
    apply in_map_iff. exists (fst p). split; [destruct p; reflexivity|].
    apply range_In; lia.
Qed.

Lemma drawRect_pixels_inside x y w h p :
  In p (Canvas.drawRect_pixels x y w h) -> Canvas.inside p.
Proof.
  intros H. apply drawRect_pixels_In in H. destruct H as [Hx Hy].
  pose proof (std_clamp_bounds x Canvas.WIDTH ltac:(unfold Canvas.WIDTH; lia)).
  pose proof (std_clamp_bounds y Canvas.HEIGHT ltac:(unfold Canvas.HEIGHT; lia)).
  pose proof (std_min_le_r (Int.add x w) Canvas.WIDTH).
  pose proof (std_min_le_r (Int.add y h) Canvas.HEIGHT).
  unfold Canvas.inside. lia.
Qed.

(** ** [setPixel] on a pixel inside the raster *)

Lemma offset_inside p :
  Canvas.inside p ->
  0 <= offset p /\ offset p + 4 <= Canvas.WIDTH * Canvas.HEIGHT * Canvas.DEPTH.
Proof.
  unfold Canvas.inside, offset, Canvas.WIDTH, Canvas.HEIGHT, Canvas.DEPTH.
  destruct p as [px py]; simpl. lia.
Qed.

Lemma int_offset_inside p :
  Canvas.inside p ->
  Int.mul (Int.add (fst p) (Int.mul (snd p) Canvas.WIDTH)) Canvas.DEPTH = offset p.
Proof.
  intros H. pose proof (offset_inside p H) as Ho. revert H Ho.
  unfold Canvas.inside, offset, Canvas.WIDTH, Canvas.HEIGHT, Canvas.DEPTH.
  destruct p as [px py]; simpl. intros H Ho.
  unfold Int.mul, Int.add.
  rewrite (wrap_in_range (py * 256))
    by int_range.
  rewrite (wrap_in_range (px + py * 256))
    by int_range.
  apply wrap_in_range. int_range.
Qed.

Lemma bytes_length c : length (Color.bytes c) = 4%nat.
Proof. unfold Color.bytes. destruct (Color.data c) as [[[? ?] ?] ?]. reflexivity. Qed.

Lemma store_length idx bs d :
  (idx + length bs <= length d)%nat -> length (Canvas.store idx bs d) = length d.
Proof.
  intros H. unfold Canvas.store.
  rewrite !length_app, length_firstn, length_skipn. lia.
Qed.

Lemma store_nth idx bs d i :
  (idx + length bs <= length d)%nat ->
  nth i (Canvas.store idx bs d) 0 =
  if (idx <=? i)%nat && (i <? idx + length bs)%nat
  then nth (i - idx) bs 0 else nth i d 0.
Proof.
  intros H. unfold Canvas.store.
  assert (Hf : length (firstn idx d) = idx) by (rewrite length_firstn; lia).
  destruct (Nat.leb_spec idx i) as [Hle|Hlt]; simpl.
  - rewrite app_nth2 by lia. rewrite Hf.
    destruct (Nat.ltb_spec i (idx + length bs)) as [Hin|Hout].
    + rewrite app_nth1 by lia. reflexivity.
    + rewrite app_nth2 by lia. rewrite nth_skipn. f_equal. lia.
  - rewrite app_nth1 by lia. rewrite nth_firstn.
    destruct (Nat.ltb_spec i idx); [reflexivity|lia].
Qed.

Lemma setPixel_inside p c cv :
  Canvas.wf cv -> Canvas.inside p ->
  Canvas.setPixel (fst p) (snd p) c cv =
  Ok {| Canvas.data :=
         Canvas.store (Z.to_nat (offset p)) (Color.bytes c) (Canvas.data cv) |}.
Proof.
  intros Hwf Hin. unfold Canvas.setPixel.
  rewrite (int_offset_inside p Hin).
  destruct (offset_inside p Hin) as [H0 H1].
  rewrite Hwf.
  destruct (Z.leb_spec 0 (offset p)); [|lia].
  destruct (Z.leb_spec (offset p + 4) (Canvas.WIDTH * Canvas.HEIGHT * Canvas.DEPTH)); [|lia].
  reflexivity.
Qed.

Lemma setPixel_wf p c cv cv' :
  Canvas.wf cv -> Canvas.inside p ->
  Canvas.setPixel (fst p) (snd p) c cv = Ok cv' -> Canvas.wf cv'.
Proof.
  intros Hwf Hin H. rewrite (setPixel_inside p c cv Hwf Hin) in H.
  injection H as <-. unfold Canvas.wf, Canvas.size in *. simpl.
  destruct (offset_inside p Hin) as [H0 H1].
  rewrite store_length; [assumption|]. rewrite bytes_length. lia.
Qed.

Lemma byte_at_setPixel p c cv cv' i :
  Canvas.wf cv -> Canvas.inside p -> 0 <= i ->
  Canvas.setPixel (fst p) (snd p) c cv = Ok cv' ->
  Canvas.byte_at cv' i =
  if covers i p then nth (Z.to_nat (i mod 4)) (Color.bytes c) 0
  else Canvas.byte_at cv i.
Proof.
  intros Hwf Hin Hi H. rewrite (setPixel_inside p c cv Hwf Hin) in H.
  injection H as <-. unfold Canvas.byte_at; simpl.
  destruct (offset_inside p Hin) as [H0 H1].
  rewrite store_nth
    by (rewrite bytes_length; unfold Canvas.wf, Canvas.size in Hwf; lia).
  rewrite bytes_length. unfold covers.
  assert (Hm : offset p <= i < offset p + 4 -> i mod 4 = i - offset p).
  { intros Hc. unfold offset, Canvas.DEPTH in *.
    replace i with ((i - (fst p + snd p * Canvas.WIDTH) * 4)
                    + (fst p + snd p * Canvas.WIDTH) * 4) at 1 by lia.
    rewrite Z_mod_plus_full. apply Z.mod_small. lia. }
  destruct (Z.leb_spec (offset p) i) as [Hle|Hlt];
    destruct (Nat.leb_spec (Z.to_nat (offset p)) (Z.to_nat i)); try lia; simpl;
    try reflexivity.
  destruct (Z.ltb_spec i (offset p + 4));
    destruct (Nat.ltb_spec (Z.to_nat i) (Z.to_nat (offset p) + 4)); try lia;
    try reflexivity.
  f_equal. rewrite Hm by lia. lia.
Qed.

(** ** [drawRect] as one pass of [setPixel] over its iteration space *)

Lemma drawRect_fill x y w h c cv :
  Canvas.drawRect x y w h c cv = fill (Canvas.drawRect_pixels x y w h) c cv.
Proof.
  unfold Canvas.drawRect, Canvas.drawRect_pixels, fill.
  rewrite for_each_flat_map. apply for_each_ext. intros yi s.
  rewrite for_each_map. reflexivity.
Qed.

Lemma fill_spec pixels c cv :
  Canvas.wf cv -> Forall Canvas.inside pixels ->
  exists cv',
    fill pixels c cv = Ok cv' /\ Canvas.wf cv' /\
    forall i, 0 <= i ->
      Canvas.byte_at cv' i =
      if existsb (covers i) pixels
      then nth (Z.to_nat (i mod 4)) (Color.bytes c) 0
      else Canvas.byte_at cv i.
Proof.
  intros Hwf Hall. revert cv Hwf.
  induction Hall as [|p ps Hp Hps IH]; intros cv Hwf.
  - exists cv. simpl. auto.
  - unfold fill; simpl.
    pose proof (setPixel_inside p c cv Hwf Hp) as Hset. rewrite Hset; simpl.
    pose proof (setPixel_wf p c cv _ Hwf Hp Hset) as Hwf1.
    destruct (IH _ Hwf1) as [cv' [Hfill [Hwf' Hbytes]]].
    exists cv'. split; [exact Hfill|]. split; [exact Hwf'|].
    intros i Hi. rewrite (Hbytes i Hi).
    rewrite (byte_at_setPixel p c cv _ i Hwf Hp Hi Hset).
    destruct (covers i p), (existsb (covers i) ps); reflexivity.
Qed.

Lemma existsb_covers_false i pixels :
  ~ In i (flat_map Canvas.pixel_bytes pixels) ->
  Forall Canvas.inside pixels ->
  existsb (covers i) pixels = false.
Proof.
  intros Hni Hall. induction Hall as [|p ps Hp Hps IH]; [reflexivity|].
  cbn [flat_map existsb] in *. rewrite in_app_iff in Hni.
  rewrite IH by tauto. rewrite orb_false_r.
  unfold covers. unfold Canvas.pixel_bytes in Hni.
  rewrite (int_offset_inside p Hp) in Hni. cbn [In] in Hni.
  destruct (Z.leb_spec (offset p) i); [|reflexivity].
  destruct (Z.ltb_spec i (offset p + 4)); [|reflexivity].
  exfalso. apply Hni. left. lia.
Qed.

(** ** Rectangles that miss the raster *)

Lemma drawRect_pixels_outside x y w h :
  Int.in_range x -> Int.in_range y -> Int.in_range w -> Int.in_range h ->
  Int.min_int <= x + w -> Int.min_int <= y + h ->
  Canvas.rect_outside x y w h ->
  Canvas.drawRect_pixels x y w h = [].
Proof.
  intros Hx Hy Hw Hh Hxw Hyh Hout.
  destruct (Canvas.drawRect_pixels x y w h) as [|p ps] eqn:E; [reflexivity|].
  exfalso.
  assert (Hin : In p (Canvas.drawRect_pixels x y w h)) by (rewrite E; left; reflexivity).
  pose proof (drawRect_pixels_inside _ _ _ _ _ Hin) as Hins.
  apply drawRect_pixels_In in Hin. destruct Hin as [Hpx Hpy].
  destruct p as [px py]. simpl in *.
  assert (Hedge : forall v len hi q,
             Int.in_range v -> Int.in_range len -> Int.min_int <= v + len ->
             0 <= hi ->
             std_clamp v 0 hi <= q < std_min (Int.add v len) hi ->
             v <= q < v + len).
  { clear. intros v len hi q Hv Hl Hvl Hhi Hq.
    unfold Int.in_range, Int.min_int, Int.max_int in *.
    pose proof (std_min_le_l (Int.add v len) hi).
    pose proof (std_min_le_r (Int.add v len) hi).
    assert (Hc : v <= std_clamp v 0 hi \/ hi <= std_clamp v 0 hi).
    { unfold std_clamp. destruct (Z.ltb_spec v 0); [lia|].
      destruct (Z.ltb_spec hi v); lia. }
    assert (Hc0 : 0 <= std_clamp v 0 hi) by (apply std_clamp_bounds; lia).
    destruct (Z_le_gt_dec (v + len) 2147483647) as [Hno|Hov].
    - unfold Int.add in *.
      rewrite wrap_in_range in *
        by int_range.
      lia.
    - exfalso. unfold Int.add, Int.wrap in *.
      replace (v + len + 2147483648) with ((v + len - 2147483648) + 1 * 4294967296) in * by lia.
      rewrite Z_mod_plus_full in *.
      rewrite Z.mod_small in * by lia. lia. }
  apply (Hout px py).
  - apply (Hedge x w Canvas.WIDTH px); auto. unfold Canvas.WIDTH; lia.
  - apply (Hedge y h Canvas.HEIGHT py); auto. unfold Canvas.HEIGHT; lia.
  - exact Hins.
Qed.

Lemma make_wf : Canvas.wf Canvas.make.
Proof.
  unfold Canvas.wf, Canvas.size, Canvas.make; cbn [Canvas.data].
  rewrite repeat_length. unfold Canvas.WIDTH, Canvas.HEIGHT, Canvas.DEPTH. lia.
Qed.

(** ** Pixels after [drawRect] *)

Lemma drawn_In x y w h p :
  drawn x y w h p = true <-> In p (Canvas.drawRect_pixels x y w h).
Proof.
  rewrite drawRect_pixels_In. unfold drawn.
  rewrite !andb_true_iff, !Z.leb_le, !Z.ltb_lt. tauto.
Qed.

Lemma offset_inj p q :
  Canvas.inside p -> Canvas.inside q -> offset p = offset q -> p = q.
Proof.
  unfold Canvas.inside, offset, Canvas.WIDTH, Canvas.HEIGHT, Canvas.DEPTH.
  destruct p as [px py], q as [qx qy]; simpl. intros Hp Hq H.
  assert (py = qy) by lia. subst. f_equal. lia.
Qed.

Lemma covers_same p q k :
  Canvas.inside p -> Canvas.inside q -> 0 <= k < 4 ->
  covers (offset p + k) q = true <-> q = p.
Proof.
  intros Hp Hq Hk. unfold covers.
  rewrite andb_true_iff, Z.leb_le, Z.ltb_lt. split.
  - intros H. apply offset_inj; auto.
    unfold offset, Canvas.DEPTH in *. lia.
  - intros ->. lia.
Qed.

Lemma existsb_covers_In pixels p k :
  Forall Canvas.inside pixels -> Canvas.inside p -> 0 <= k < 4 ->
  existsb (covers (offset p + k)) pixels = true <-> In p pixels.
Proof.
  intros Hall Hp Hk. rewrite existsb_exists. rewrite Forall_forall in Hall.
  split.
  - intros [q [Hq Hc]]. apply covers_same in Hc; auto. subst. exact Hq.
  - intros Hin. exists p. split; [exact Hin|]. apply covers_same; auto.
Qed.

Lemma bytes_nth c :
  Color.bytes c = map (fun k => nth (Z.to_nat ((0 + k) mod 4)) (Color.bytes c) 0)
                      [0; 1; 2; 3].
Proof. unfold Color.bytes. destruct (Color.data c) as [[[? ?] ?] ?]. reflexivity. Qed.

Lemma offset_mod p k : (offset p + k) mod 4 = (0 + k) mod 4.
Proof.
  unfold offset, Canvas.DEPTH. rewrite Z.add_comm, Z_mod_plus_full.
  reflexivity.
Qed.

(** [drawRect] sets exactly the pixels of the clamped rectangle. *)
Lemma drawRect_spec x y w h c cv :
  Canvas.wf cv ->
  exists cv',
    Canvas.drawRect x y w h c cv = Ok cv' /\ Canvas.wf cv' /\
    forall p, Canvas.inside p ->
      pixel cv' p = if drawn x y w h p then Color.bytes c else pixel cv p.
Proof.
  intros Hwf.
  assert (Hall : Forall Canvas.inside (Canvas.drawRect_pixels x y w h)).
  { apply Forall_forall. intros p Hp. eapply drawRect_pixels_inside; eassumption. }
  rewrite drawRect_fill.
  destruct (fill_spec _ c cv Hwf Hall) as [cv' [Hfill [Hwf' Hbytes]]].
  exists cv'. split; [exact Hfill|]. split; [exact Hwf'|].
  intros p Hp. destruct (offset_inside p Hp) as [H0 _].
  assert (Hk : forall k, 0 <= k < 4 ->
             Canvas.byte_at cv' (offset p + k) =
             if drawn x y w h p
             then nth (Z.to_nat ((0 + k) mod 4)) (Color.bytes c) 0
             else Canvas.byte_at cv (offset p + k)).
  { intros k Hk. rewrite Hbytes by lia. rewrite offset_mod.
    destruct (drawn x y w h p) eqn:Hd.
    - apply drawn_In in Hd.
      rewrite (proj2 (existsb_covers_In _ p k Hall Hp Hk) Hd). reflexivity.
    - destruct (existsb (covers (offset p + k)) (Canvas.drawRect_pixels x y w h)) eqn:He;
        [|reflexivity].
      apply existsb_covers_In in He; auto. apply drawn_In in He. congruence. }
  unfold pixel. cbn [map].
  rewrite !Hk by lia.
  destruct (drawn x y w h p); [|reflexivity].
  rewrite (bytes_nth c) at 5. reflexivity.
Qed.

(** ** The backing store as a sequence of pixels *)

Lemma pixel_of_index_inside k :
  (k < Z.to_nat (Canvas.WIDTH * Canvas.HEIGHT))%nat ->
  Canvas.inside (pixel_of_index k) /\ offset (pixel_of_index k) = 4 * Z.of_nat k.
Proof.
  unfold Canvas.inside, pixel_of_index, offset,
    Canvas.WIDTH, Canvas.HEIGHT, Canvas.DEPTH. simpl fst; simpl snd.
  intros H.
  pose proof (Z.mod_pos_bound (Z.of_nat k) 256 ltac:(lia)).
  pose proof (Z.div_mod (Z.of_nat k) 256 ltac:(lia)).
  assert (0 <= Z.of_nat k / 256 < 256).
  { split; [apply Z.div_pos; lia|apply Z.div_lt_upper_bound; lia]. }
  lia.
Qed.

Lemma chunks4 n (d : list Z) :
  length d = (4 * n)%nat ->
  d = flat_map (fun k => [nth (4 * k) d 0; nth (4 * k + 1) d 0;
                          nth (4 * k + 2) d 0; nth (4 * k + 3) d 0])
               (seq 0 n).
Proof.
  revert d. induction n as [|n IH]; intros d Hlen.
  - destruct d; [reflexivity|discriminate].
  - destruct d as [|a [|b [|c [|e d']]]]; cbn [length] in Hlen; try lia.
    rewrite <- cons_seq, <- seq_shift. cbn [flat_map].
    rewrite flat_map_concat_map, map_map, <- flat_map_concat_map.
    change (4 * 0)%nat with 0%nat. cbn [app nth Nat.add]. do 4 f_equal.
    rewrite (IH d') at 1 by lia.
    apply flat_map_ext. intros k.
    replace (4 * S k)%nat with (S (S (S (S (4 * k))))) by lia.
    reflexivity.
Qed.

Lemma flat_map_ext_In {A B} (f g : A -> list B) (l : list A) :
  (forall a, In a l -> f a = g a) -> flat_map f l = flat_map g l.
Proof.
  induction l as [|a l IH]; intros H; simpl; [reflexivity|].
  rewrite H by (left; reflexivity). rewrite IH; [reflexivity|].
  intros b Hb. apply H. right. exact Hb.
Qed.

Lemma data_pixels cv :
  Canvas.wf cv ->
  Canvas.data cv =
  flat_map (fun k => pixel cv (pixel_of_index k))
           (seq 0 (Z.to_nat (Canvas.WIDTH * Canvas.HEIGHT))).
Proof.
  intros Hwf. unfold Canvas.wf, Canvas.size in Hwf.
  rewrite (chunks4 (Z.to_nat (Canvas.WIDTH * Canvas.HEIGHT)) (Canvas.data cv)) at 1
    by (unfold Canvas.WIDTH, Canvas.HEIGHT, Canvas.DEPTH in *; lia).
  apply flat_map_ext_In. intros k Hk. apply in_seq in Hk.
  destruct (pixel_of_index_inside k ltac:(lia)) as [_ Ho].
  unfold pixel, Canvas.byte_at. cbn [map]. rewrite Ho.
  repeat (f_equal; try lia).
Qed.

Lemma flat_map_const {A B} (b : list B) (l : list A) :
  flat_map (fun _ => b) l = concat (repeat b (length l)).
Proof. induction l; simpl; [reflexivity|]. rewrite IHl. reflexivity. Qed.

(** A canvas all of whose pixels hold the bytes [b]. *)
Lemma uniform_data cv b :
  Canvas.wf cv ->
  (forall p, Canvas.inside p -> pixel cv p = b) ->
  Canvas.data cv = concat (repeat b (Z.to_nat (Canvas.WIDTH * Canvas.HEIGHT))).
Proof.
  intros Hwf Hall. rewrite (data_pixels cv Hwf).
  transitivity (flat_map (fun _ : nat => b)
                         (seq 0 (Z.to_nat (Canvas.WIDTH * Canvas.HEIGHT)))).
  - apply flat_map_ext_In. intros k Hk. apply in_seq in Hk.
    apply Hall. apply pixel_of_index_inside. lia.
  - rewrite flat_map_const, length_seq. reflexivity.
Qed.

Lemma clear_spec cv :
  Canvas.wf cv ->
  exists cv',
    Canvas.clear cv = Ok cv' /\ Canvas.wf cv' /\
    forall p, Canvas.inside p -> pixel cv' p = [0; 0; 0; 255].
Proof.
  intros Hwf. unfold Canvas.clear.
  destruct (drawRect_spec 0 0 Canvas.WIDTH Canvas.HEIGHT (Color.make 0 0 0) cv Hwf)
    as [cv' [Hd [Hwf' Hpix]]].
  exists cv'. split; [exact Hd|]. split; [exact Hwf'|].
  intros p Hp. rewrite (Hpix p Hp).
  replace (drawn 0 0 Canvas.WIDTH Canvas.HEIGHT p) with true; [reflexivity|].
  symmetry. unfold drawn, Canvas.inside in *.
  change (std_clamp 0 0 Canvas.WIDTH) with 0.
  change (std_clamp 0 0 Canvas.HEIGHT) with 0.
  change (std_min (Int.add 0 Canvas.WIDTH) Canvas.WIDTH) with Canvas.WIDTH.
  change (std_min (Int.add 0 Canvas.HEIGHT) Canvas.HEIGHT) with Canvas.HEIGHT.
  rewrite !andb_true_iff, !Z.leb_le, !Z.ltb_lt. lia.
Qed.

(** ** Serialisation *)

Lemma append_assoc (a b c : string) : ((a ++ b) ++ c = a ++ (b ++ c))%string.
Proof. induction a as [|ch a IH]; simpl; [reflexivity|]. rewrite IH. reflexivity. Qed.

Lemma append_nil_r (a : string) : (a ++ "" = a)%string.
Proof. induction a as [|ch a IH]; simpl; [reflexivity|]. rewrite IH. reflexivity. Qed.

Lemma append_length (a b : string) :
  String.length (a ++ b) = (String.length a + String.length b)%nat.
Proof. induction a as [|ch a IH]; simpl; [reflexivity|]. rewrite IH. reflexivity. Qed.

Lemma toString_loop_from (pre suf : list Z) (acc : string) :
  fold_left
    (fun str i =>
       let str := (str ++ to_string (nth i (pre ++ suf) 0))%string in
       if (Z.of_nat i =? Z.of_nat (length (pre ++ suf)) - 1) then str
       else (str ++ ",")%string)
    (seq (length pre) (length suf)) acc
  = (acc ++ String.concat "," (map to_string suf))%string.
Proof.
  revert pre acc. induction suf as [|b suf IH]; intros pre acc.
  - simpl. rewrite append_nil_r. reflexivity.
  - cbn [length seq fold_left].
    rewrite app_nth2 by lia. rewrite Nat.sub_diag. cbn [nth].
    replace (pre ++ b :: suf) with ((pre ++ [b]) ++ suf)
      by (rewrite <- app_assoc; reflexivity).
    replace (S (length pre)) with (length (pre ++ [b]))
      by (rewrite length_app; simpl; lia).
    rewrite IH. rewrite !length_app. cbn [length map].
    destruct suf as [|b' suf].
    + cbn [length map String.concat].
      destruct (Z.eqb_spec (Z.of_nat (length pre))
                  (Z.of_nat (length pre + 1 + 0) - 1)); [|lia].
      rewrite append_nil_r. reflexivity.
    + destruct (Z.eqb_spec (Z.of_nat (length pre))
                  (Z.of_nat (length pre + 1 + length (b' :: suf)) - 1)) as [E|_];
        [cbn [length] in E; lia|].
      cbn [map String.concat]. rewrite !append_assoc. reflexivity.
Qed.

Lemma toString_loop_join (d : list Z) :
  Canvas.toString_loop d = String.concat "," (map to_string d).
Proof. exact (toString_loop_from [] d ""). Qed.

Lemma concat_cons2 (sep x y : string) (l : list string) :
  String.concat sep (x :: y :: l) = (x ++ sep ++ String.concat sep (y :: l))%string.
Proof. reflexivity. Qed.

Lemma join_pixels (b0 b1 b2 b3 : Z) (n : nat) :
  String.concat "," (map to_string (concat (repeat [b0; b1; b2; b3] n)))
  = String.concat ","
      (repeat (to_string b0 ++ "," ++ to_string b1 ++ "," ++
               to_string b2 ++ "," ++ to_string b3)%string n).
Proof.
  induction n as [|n IH]; [reflexivity|].
  destruct n as [|n]; [reflexivity|].
  remember (S n) as m eqn:Em.
  change (repeat [b0; b1; b2; b3] (S m))
    with ([b0; b1; b2; b3] :: repeat [b0; b1; b2; b3] m).
  change (concat ([b0; b1; b2; b3] :: repeat [b0; b1; b2; b3] m))
    with (b0 :: b1 :: b2 :: b3 :: concat (repeat [b0; b1; b2; b3] m)).
  cbn [map repeat].
  assert (Hne : exists y l, map to_string (concat (repeat [b0; b1; b2; b3] m)) = y :: l).
  { subst m. cbn [repeat concat app map]. eauto. }
  destruct Hne as [y [l Hyl]]. rewrite Hyl in *.
  assert (Hne' : exists z r,
             repeat (to_string b0 ++ "," ++ to_string b1 ++ "," ++
                     to_string b2 ++ "," ++ to_string b3)%string m = z :: r).
  { subst m. cbn [repeat]. eauto. }
  destruct Hne' as [z [r Hzr]]. rewrite Hzr in *.
  rewrite !concat_cons2. rewrite IH.
  rewrite ?append_assoc. reflexivity.
Qed.

(** ** Requests *)

Lemma prefix_starts_with p s : prefix p s = true <-> starts_with p s.
Proof.
  unfold starts_with. rewrite prefix_correct. revert s.
  induction p as [|a p IH]; intros s.
  - simpl. split; [intros _; exists s; reflexivity|].
    intros _. destruct s; reflexivity.
  - destruct s as [|b s]; simpl.
    + split; [discriminate|]. intros [rest H]. discriminate.
    + split.
      * intros H. injection H as -> H. apply IH in H. destruct H as [rest ->].
        exists rest. reflexivity.
      * intros [rest H]. injection H as -> ->. f_equal.
        apply IH. exists rest. reflexivity.
Qed.

Lemma index_zero pat s : index 0 pat s = Some 0%nat <-> prefix pat s = true.
Proof.
  destruct s as [|b s]; cbn [index].
  - destruct pat as [|a pat].
    + split; [intros _|reflexivity]. apply prefix_starts_with. exists ""%string. reflexivity.
    + split; [discriminate|]. intros H. apply prefix_starts_with in H.
      destruct H as [rest H]. discriminate.
  - destruct (prefix pat (String b s)).
    + tauto.
    + destruct (index 0 pat s); split; discriminate.
Qed.

(** [s.find(pat) == 0] tests whether [s] begins with [pat]. *)
Lemma find_zero s pat : find s pat = 0 <-> starts_with pat s.
Proof.
  rewrite <- prefix_starts_with, <- index_zero. unfold find.
  destruct (index 0 pat s) as [i|].
  - split; [intros H; f_equal; lia|]. intros H. injection H as ->. reflexivity.
  - split; [|discriminate]. unfold SizeT.npos, SizeT.modulus. lia.
Qed.

Lemma find_zero_dec s pat :
  (find s pat =? 0) = true <-> starts_with pat s.
Proof. rewrite Z.eqb_eq. apply find_zero. Qed.

Lemma find_range s pat :
  find s pat = SizeT.npos \/ 0 <= find s pat <= Z.of_nat (String.length s).
Proof.
  unfold find. destruct (index 0 pat s) as [i|] eqn:E; [right|left; reflexivity].
  split; [lia|].
  assert (H : forall n i, index n pat s = Some i -> (i <= String.length s)%nat).
  { clear. induction s as [|b s IH]; intros n i H; cbn [index] in H.
    - destruct n; [|discriminate]. destruct pat; [|discriminate].
      injection H as <-. simpl. lia.
    - destruct n.
      + destruct (prefix pat (String b s)).
        * injection H as <-. lia.
        * destruct (index 0 pat s) eqn:E; [|discriminate].
          injection H as <-. apply IH in E. simpl. lia.
      + destruct (index n pat s) eqn:E; [|discriminate].
        injection H as <-. apply IH in E. simpl. lia. }
  apply H in E. lia.
Qed.

(** [getRequestLine] cannot throw: its [substr] starts at 0. *)
Lemma getRequestLine_total request :
  exists line, getRequestLine request = Ok line.
Proof.
  unfold getRequestLine, substr.
  destruct (Z.ltb_spec (Z.of_nat (String.length request)) 0); [lia|].
  eexists. reflexivity.
Qed.

(** [to_string] prints the decimal numeral of its argument: reading
    the text back gives the number. *)
Lemma to_string_reads_back (n : Z) :
  option_map Z.of_int (NilZero.int_of_string (to_string n)) = Some n.
Proof.
  unfold to_string. rewrite NilZero.isi.
  - cbn [option_map]. rewrite DecimalZ.of_to. reflexivity.
  - destruct n; cbn [Z.to_int]; try discriminate.
    intros H. injection H as H. exact (Unsigned.to_uint_nonnil _ H).
  - destruct n; cbn [Z.to_int]; try discriminate.
    intros H. injection H as H. exact (Unsigned.to_uint_nonnil _ H).
Qed.

(** ** The request body *)

Lemma substring_skip (pre s : string) (m : nat) :
  substring (String.length pre) m (pre ++ s) = substring 0 m s.
Proof. induction pre as [|a pre IH]; simpl; [reflexivity|exact IH]. Qed.

Lemma substring_all (s : string) (m : nat) :
  (String.length s <= m)%nat -> substring 0 m s = s.
Proof.
  revert m. induction s as [|a s IH]; intros m H.
  - destruct m; reflexivity.
  - destruct m; simpl in *; [lia|]. rewrite IH by lia. reflexivity.
Qed.

Lemma substring_prefix (p s : string) :
  substring 0 (String.length p) (p ++ s) = p.
Proof. induction p as [|a p IH]; simpl; [destruct s; reflexivity|]. rewrite IH. reflexivity. Qed.

(** [index] finds the first occurrence. *)
Lemma index_first (pat s : string) (i : nat) :
  pat <> ""%string ->
  substring i (String.length pat) s = pat ->
  (forall j, (j < i)%nat -> substring j (String.length pat) s <> pat) ->
  index 0 pat s = Some i.
Proof.
  intros Hne Hat Hbefore.
  destruct (index 0 pat s) as [m|] eqn:E.
  - f_equal.
    pose proof (index_correct1 _ _ _ _ E) as H1.
    pose proof (index_correct2 _ _ _ _ E) as H2.
    destruct (Nat.lt_trichotomy m i) as [Hlt|[Heq|Hgt]]; [|exact Heq|].
    + exfalso. exact (Hbefore m Hlt H1).
    + exfalso. apply (H2 i); [lia|exact Hgt|exact Hat].
  - exfalso. apply (index_correct3 0 i pat s E Hne); [lia|exact Hat].
Qed.

(** The request line of a request that is cut at its first CRLF. *)
Lemma getRequestLine_value request :
  getRequestLine request =
  Ok (substring 0 (Z.to_nat (Z.min (find request CRLF)
                                   (Z.of_nat (String.length request)))) request).
Proof.
  unfold getRequestLine, substr.
  destruct (Z.ltb_spec (Z.of_nat (String.length request)) 0); [lia|].
  rewrite Z.sub_0_r. reflexivity.
Qed.

(** When the request line does not begin with "POST" the body is empty. *)
Lemma getRequestBody_not_post request line :
  getRequestLine request = Ok line ->
  ~ starts_with "POST" line ->
  getRequestBody request = Ok ""%string.
Proof.
  intros Hl Hn. unfold getRequestBody. rewrite Hl. cbn [bind].
  destruct (find line "POST" =? 0) eqn:E; [|reflexivity].
  apply find_zero_dec in E. contradiction.
Qed.

(** When the request line begins with "POST" and the request has a
    CRLF-CRLF, the body is what follows the first one. *)
Lemma getRequestBody_after_separator (head body line : string) :
  let request := (head ++ (CRLF ++ CRLF) ++ body)%string in
  Z.of_nat (String.length request) < SizeT.modulus ->
  (forall j, (j < String.length head)%nat ->
             substring j 4 request <> (CRLF ++ CRLF)%string) ->
  getRequestLine request = Ok line ->
  starts_with "POST" line ->
  getRequestBody request = Ok body.
Proof.
  intros request Hsize Hfirst Hl Hpost. unfold getRequestBody. rewrite Hl. cbn [bind].
  apply find_zero_dec in Hpost. rewrite Hpost. cbn [negb].
  assert (Hidx : index 0 (CRLF ++ CRLF) request = Some (String.length head)).
  { apply index_first; [discriminate| |exact Hfirst].
    unfold request. rewrite substring_skip.
    exact (substring_prefix (CRLF ++ CRLF) body). }
  unfold find. rewrite Hidx. unfold substr, SizeT.add, SizeT.wrap.
  assert (Hlen : String.length request
                 = (String.length head + 4 + String.length body)%nat).
  { unfold request. rewrite !append_length. simpl. lia. }
  rewrite Z.mod_small by lia.
  destruct (Z.ltb_spec (Z.of_nat (String.length request))
              (Z.of_nat (String.length head) + 4)); [lia|].
  f_equal.
  replace (Z.to_nat (Z.of_nat (String.length head) + 4))
    with (String.length (head ++ (CRLF ++ CRLF)))
    by (rewrite append_length; simpl; lia).
  unfold request. rewrite <- (append_assoc head (CRLF ++ CRLF) body).
  rewrite substring_skip. apply substring_all.
  rewrite Hlen in Hsize. unfold SizeT.npos, SizeT.modulus in *.
  rewrite !append_length. cbn [String.length CRLF append]. lia.
Qed.

(** ** The connection loops *)

Lemma receiveSendLoop_pacing fd next script p :
  let evs := snd (Session.receiveSendLoop fd next script p) in
  Session.deadlines evs
  = map (fun n => next + Z.of_nat n * Session.interval)
        (seq 0 (length (Session.deadlines evs)))
  /\ Forall2 Z.le (Session.deadlines evs) (Session.send_times evs).
Proof.
  revert next p. induction script as [|r script IH]; intros next p.
  - no_send.
  - cbn [Session.receiveSendLoop].
    destruct (Session.vector_resize (SizeT.of_signed (Session.readSize r)));
      try no_send.
    destruct (Session.readSize r =? -1);
      [no_send|].
    destruct (Session.readSize r =? 0);
      [no_send|].
    cbn [Session.world Session.now].
    destruct (createResponse _ _) as [[response w]| |];
      try no_send.
    match goal with
    | |- context [Session.receiveSendLoop fd ?n script ?q] =>
        specialize (IH n q); destruct (Session.receiveSendLoop fd n script q)
          as [[exit p'] evs]
    end.
    cbn [snd] in *. destruct IH as [IHd IHs].
    change (Session.deadlines (Session.EvRecv fd (Session.readSize r)
              :: Session.EvSleepUntil next
              :: Session.EvSend fd response
                   (Z.max (Session.now p + Z.of_N (Session.elapsed r)) next
                    + Z.of_N (Session.overslept r)) :: evs))
      with (next :: Session.deadlines evs).
    change (Session.send_times (Session.EvRecv fd (Session.readSize r)
              :: Session.EvSleepUntil next
              :: Session.EvSend fd response
                   (Z.max (Session.now p + Z.of_N (Session.elapsed r)) next
                    + Z.of_N (Session.overslept r)) :: evs))
      with ((Z.max (Session.now p + Z.of_N (Session.elapsed r)) next
             + Z.of_N (Session.overslept r)) :: Session.send_times evs).
    split.
    + cbn [length seq map]. f_equal; [lia|].
      rewrite <- seq_shift, map_map. rewrite IHd at 1.
      apply map_ext. intros n. lia.
    + constructor; [lia|exact IHs].
Qed.

Lemma recv_shutdown_ends_session
      (p : Session.Proc) (buf : string) (dt late : N)
      (rest : list Session.Recv) (later : list Session.Accept) :
  Session.runConnectionLoop
    ({| Session.acceptedFd := 4;
        Session.reads :=
          {| Session.readSize := 0; Session.buffer := buf;
             Session.elapsed := dt; Session.overslept := late |} :: rest |}
       :: later) p
  = let '(exit, p', evs) :=
      Session.runConnectionLoop later
        {| Session.world := Session.world p;
           Session.now := Session.now p + Z.of_N dt |} in
    (exit, p',
     Session.EvAccept 4 :: Session.EvRecv 4 0
       :: Session.EvPrint "Peer shutdown" :: Session.EvClose 4 :: evs).
Proof. reflexivity. Qed.

(** ** Key state *)

Lemma get_Some (s : string) (n : nat) :
  (n < String.length s)%nat -> exists ch, get n s = Some ch.
Proof.
  revert n. induction s as [|a s IH]; intros n H; simpl in H; [lia|].
  destruct n; simpl; [eauto|]. apply IH. lia.
Qed.

Lemma get_None (s : string) (n : nat) :
  (String.length s <= n)%nat -> get n s = None.
Proof.
  revert n. induction s as [|a s IH]; intros n H; [reflexivity|].
  simpl in H. destruct n; [lia|]. simpl. apply IH. lia.
Qed.

Lemma isKeyDown_covered (body : string) (k : KeyCode) :
  KeyCode_int k < Z.of_nat (String.length body) ->
  isKeyDown body k = Ok (pressed body k).
Proof.
  intros H. unfold isKeyDown, pressed.
  assert (Hn : (Z.to_nat (KeyCode_int k) < String.length body)%nat)
    by (destruct k; simpl in *; lia).
  destruct (get_Some body _ Hn) as [ch ->].
  reflexivity.
Qed.

Lemma isKeyDown_beyond (body : string) (k : KeyCode) :
  Z.of_nat (String.length body) <= KeyCode_int k ->
  isKeyDown body k = Undefined.
Proof.
  intros H. unfold isKeyDown.
  rewrite get_None; [reflexivity|]. destruct k; simpl in *; lia.
Qed.

Lemma Hero_update_covered (body : string) (h : Hero.t) :
  41 <= Z.of_nat (String.length body) ->
  Hero.update body h
  = Ok (displace (pressed body ArrowLeft) (pressed body ArrowUp)
                 (pressed body ArrowRight) (pressed body ArrowDown) h).
Proof.
  intros H. unfold Hero.update.
  rewrite !isKeyDown_covered by (simpl; lia). cbn [bind].
  unfold displace. destruct h as [x y]. cbn [Hero.x_ Hero.y_].
  destruct (pressed body ArrowLeft), (pressed body ArrowUp),
    (pressed body ArrowRight), (pressed body ArrowDown); reflexivity.
Qed.

(** ** binary32 arithmetic on multiples of 8 *)

Lemma iter_pos_iter {A} (f : A -> A) (p : positive) (x : A) :
  iter_pos f p x = Pos.iter f x p.
Proof.
  revert x. induction p as [p IH|p IH|]; intros x; simpl.
  - rewrite !IH. rewrite !Pos.iter_swap. reflexivity.
  - rewrite !IH. reflexivity.
  - reflexivity.
Qed.

Lemma Zpos_iter_xO (m d : positive) :
  Z.pos (Pos.iter xO m d) = Z.pos m * 2 ^ Z.pos d.
Proof.
  rewrite (Pos.iter_swap_gen _ _ Z.pos xO (Z.mul 2)) by reflexivity.
  change (Pos.iter (Z.mul 2) (Z.pos m) d) with (Z.shiftl (Z.pos m) (Z.pos d)).
  apply Z.shiftl_mul_pow2. lia.
Qed.

Lemma digits2_log2 (m : positive) :
  Z.pos (digits2_pos m) = Z.log2 (Z.pos m) + 1.
Proof.
  assert (H : forall p, digits2_pos p = Pos.size p).
  { induction p; simpl; congruence. }
  destruct m; simpl; rewrite ?H; lia.
Qed.

(** Shifting right a mantissa that ends in [p] zero bits loses nothing. *)
Lemma shr_exact (q p : positive) :
  iter_pos shr_1 p {| shr_m := Z.pos q * 2 ^ Z.pos p; shr_r := false; shr_s := false |}
  = {| shr_m := Z.pos q; shr_r := false; shr_s := false |}.
Proof.
  rewrite iter_pos_iter. revert q.
  induction p as [|p IH] using Pos.peano_ind; intros q.
  - replace (Z.pos q * 2 ^ 1) with (Z.pos q~0) by lia. reflexivity.
  - rewrite Pos.iter_succ_r. rewrite Pos2Z.inj_succ, Z.pow_succ_r by lia.
    replace (Z.pos q * (2 * 2 ^ Z.pos p)) with (Z.pos (q~0) * 2 ^ Z.pos p) by lia.
    assert (Hs : shr_1 {| shr_m := Z.pos q~0 * 2 ^ Z.pos p; shr_r := false; shr_s := false |}
                 = {| shr_m := Z.pos q * 2 ^ Z.pos p; shr_r := false; shr_s := false |}).
    { rewrite <- !Zpos_iter_xO.
      rewrite (Pos.iter_swap p _ xO q). reflexivity. }
    rewrite Hs. apply IH.
Qed.

Lemma fexp_val d : fexp 24 128 d = Z.max (d - 24) (-149).
Proof. reflexivity. Qed.

(** An exactly representable value [m * 2^e] rounds to itself: the
    mantissa [m'] at the canonical exponent [t]. *)
Lemma binary_round_aux_exact (s : bool) (m m' : positive) (e t : Z) :
  t = fexp 24 128 (Z.pos (digits2_pos m) + e) ->
  e <= t <= 104 ->
  Z.pos m = Z.pos m' * 2 ^ (t - e) ->
  binary_round_aux 24 128 s (Z.pos m) e loc_Exact = S754_finite s m' t.
Proof.
  intros Ht Hte Hm.
  assert (Hd' : Z.pos (digits2_pos m') + t = Z.pos (digits2_pos m) + e).
  { rewrite !digits2_log2, Hm. rewrite Z.log2_mul_pow2 by lia. lia. }
  assert (Hstep1 : shr_fexp 24 128 (Z.pos m) e loc_Exact
                   = ({| shr_m := Z.pos m'; shr_r := false; shr_s := false |}, t)).
  { unfold shr_fexp. cbn [Zdigits2 shr_record_of_loc]. rewrite <- Ht.
    unfold shr. destruct (t - e) as [|p|p] eqn:Ep; try lia.
    - rewrite Z.pow_0_r, Z.mul_1_r in Hm. injection Hm as ->.
      f_equal. lia.
    - rewrite Hm. rewrite shr_exact. f_equal. lia. }
  assert (Hstep2 : shr_fexp 24 128 (Z.pos m') t loc_Exact
                   = ({| shr_m := Z.pos m'; shr_r := false; shr_s := false |}, t)).
  { unfold shr_fexp. cbn [Zdigits2 shr_record_of_loc]. rewrite Hd', <- Ht.
    rewrite Z.sub_diag. reflexivity. }
  unfold binary_round_aux. rewrite Hstep1.
  cbn [shr_m loc_of_shr_record round_nearest_even]. rewrite Hstep2.
  cbn [shr_m]. change (128 - 24) with 104.
  destruct (Z.leb_spec t 104); [reflexivity|lia].
Qed.

Lemma binary_round_exact (s : bool) (m m' : positive) (e t : Z) :
  t = fexp 24 128 (Z.pos (digits2_pos m) + e) ->
  t <= 104 ->
  (t <= e /\ Z.pos m' = Z.pos m * 2 ^ (e - t)) \/
  (e < t /\ Z.pos m = Z.pos m' * 2 ^ (t - e)) ->
  binary_round 24 128 s m e = S754_finite s m' t.
Proof.
  intros Ht Hmax Hcase. unfold binary_round. rewrite <- Ht.
  unfold shl_align.
  destruct Hcase as [[Hle Hm]|[Hlt Hm]].
  - destruct (t - e) as [|p|p] eqn:Ep; try lia.
    + assert (e = t) by lia. subst e. rewrite Z.sub_diag, Z.mul_1_r in Hm.
      injection Hm as ->.
      apply binary_round_aux_exact; try lia. rewrite Z.sub_diag. lia.
    + assert (Hp : e - t = Z.pos p) by lia. rewrite Hp in Hm.
      rewrite <- Zpos_iter_xO in Hm. injection Hm as ->.
      apply binary_round_aux_exact; try lia.
      * rewrite digits2_log2, Zpos_iter_xO, Z.log2_mul_pow2 by lia.
        rewrite Ht at 1. f_equal. rewrite digits2_log2. lia.
      * rewrite Z.sub_diag. lia.
  - destruct (t - e) as [|p|p] eqn:Ep; try lia.
    apply binary_round_aux_exact; try lia. rewrite Ep. exact Hm.
Qed.

Lemma normalize_exact (n e : Z) :
  e <= 0 -> F32.representable n ->
  binary_normalize 24 128 (n * 2 ^ (- e)) e false = F32.exact n.
Proof.
  intros He [Hmax Hrep].
  assert (Hpow : 0 < 2 ^ (- e)) by (apply Z.pow_pos_nonneg; lia).
  destruct (Z.eq_dec n 0) as [->|Hn]; [reflexivity|].
  set (a := Z.abs n) in *. assert (Ha : 0 < a) by (unfold a; lia).
  set (t := Z.log2 a + 1 - 24) in *.
  assert (Ht : -23 <= t) by (pose proof (Z.log2_nonneg a); lia).
  set (m' := Z.to_pos (if t <=? 0 then a * 2 ^ (- t) else a / 2 ^ t)).
  assert (Hm' : Z.pos m' = if t <=? 0 then a * 2 ^ (- t) else a / 2 ^ t).
  { unfold m'. rewrite Z2Pos.id; [reflexivity|].
    destruct (Z.leb_spec t 0).
    - apply Z.mul_pos_pos; [lia|apply Z.pow_pos_nonneg; lia].
    - destruct Hrep as [?|[q Hq]]; [lia|]. rewrite Hq.
      rewrite Z.div_mul by (apply Z.pow_nonzero; lia).
      assert (0 < 2 ^ t) by (apply Z.pow_pos_nonneg; lia). nia. }
  assert (Hexact : F32.exact n = S754_finite (n <? 0) m' t).
  { unfold F32.exact. destruct n; [lia| |]; reflexivity. }
  rewrite Hexact.
  assert (Hround : forall m : positive, Z.pos m = a * 2 ^ (- e) ->
             binary_round 24 128 (n <? 0) m e = S754_finite (n <? 0) m' t).
  { intros m Hm. apply binary_round_exact.
    - rewrite digits2_log2, Hm, Z.log2_mul_pow2 by lia.
      rewrite fexp_val. unfold t. lia.
    - exact Hmax.
    - rewrite Hm, Hm'. destruct (Z.le_gt_cases t e) as [Hle|Hgt]; [left|right].
      + split; [exact Hle|]. destruct (Z.leb_spec t 0); [|lia].
        rewrite <- Z.mul_assoc, <- Z.pow_add_r by lia. f_equal; f_equal; lia.
      + split; [lia|]. destruct (Z.leb_spec t 0).
        * rewrite <- Z.mul_assoc, <- Z.pow_add_r by lia. f_equal; f_equal; lia.
        * destruct Hrep as [?|[q Hq]]; [lia|]. rewrite Hq.
          rewrite Z.div_mul by (apply Z.pow_nonzero; lia).
          rewrite <- !Z.mul_assoc, <- Z.pow_add_r by lia. f_equal; f_equal; lia. }
  destruct n as [|pn|pn]; [lia| |].
  - destruct (Z.pos pn * 2 ^ (- e)) as [|m|m] eqn:Em; try lia.
    cbn [binary_normalize]. apply (Hround m). unfold a. simpl Z.abs. lia.
  - destruct (Z.neg pn * 2 ^ (- e)) as [|m|m] eqn:Em; try lia.
    cbn [binary_normalize]. apply (Hround m). unfold a. simpl Z.abs. lia.
Qed.

Lemma representable_8 (k : Z) : Z.abs k <= 16777216 -> F32.representable (8 * k).
Proof.
  intros Hk. unfold F32.representable.
  destruct (Z.eq_dec k 0) as [->|Hk0]; [simpl; lia|].
  set (a := Z.abs (8 * k)). assert (Ha : 8 <= a <= 134217728) by (unfold a; lia).
  assert (Hl : 3 <= Z.log2 a <= 27).
  { split.
    - change 3 with (Z.log2 8). apply Z.log2_le_mono. lia.
    - change 27 with (Z.log2 134217728). apply Z.log2_le_mono. lia. }
  split; [lia|].
  destruct (Z.le_gt_cases (Z.log2 a + 1 - 24) 0) as [Hle|Hgt]; [left; exact Hle|].
  right. pose proof (Z.log2_spec a ltac:(lia)) as [Hlo Hhi].
  assert (Hcases : Z.log2 a = 24 \/ Z.log2 a = 25 \/ Z.log2 a = 26 \/ Z.log2 a = 27)
    by lia.
  destruct Hcases as [E|[E|[E|E]]]; rewrite E in *.
  - exists (4 * Z.abs k). change (2 ^ (24 + 1 - 24)) with 2. unfold a. lia.
  - exists (2 * Z.abs k). change (2 ^ (25 + 1 - 24)) with 4. unfold a. lia.
  - exists (Z.abs k). change (2 ^ (26 + 1 - 24)) with 8. unfold a. lia.
  - exists 8388608. change (2 ^ (27 + 1 - 24)) with 16.
    change (2 ^ 27) with 134217728 in Hlo. lia.
Qed.

Lemma exact_finite (n : Z) :
  n <> 0 -> F32.representable n ->
  exists m t,
    F32.exact n = S754_finite (n <? 0) m t /\
    t = Z.log2 (Z.abs n) + 1 - 24 /\
    Z.pos m * 2 ^ (t + 149) = Z.abs n * 2 ^ 149.
Proof.
  intros Hn [Hmax Hrep].
  set (a := Z.abs n) in *. assert (Ha : 0 < a) by (unfold a; lia).
  set (t := Z.log2 a + 1 - 24) in *.
  assert (Ht : -23 <= t) by (pose proof (Z.log2_nonneg a); lia).
  exists (Z.to_pos (if t <=? 0 then a * 2 ^ (- t) else a / 2 ^ t)), t.
  split; [unfold F32.exact; destruct n; [lia| |]; reflexivity|].
  split; [reflexivity|].
  rewrite Z2Pos.id.
  - destruct (Z.leb_spec t 0).
    + rewrite <- Z.mul_assoc, <- Z.pow_add_r by lia. f_equal; f_equal; lia.
    + destruct Hrep as [?|[q Hq]]; [lia|]. rewrite Hq.
      rewrite Z.div_mul by (apply Z.pow_nonzero; lia).
      rewrite <- !Z.mul_assoc, <- Z.pow_add_r by lia. f_equal; f_equal; lia.
  - destruct (Z.leb_spec t 0).
    + apply Z.mul_pos_pos; [lia|apply Z.pow_pos_nonneg; lia].
    + destruct Hrep as [?|[q Hq]]; [lia|]. rewrite Hq.
      rewrite Z.div_mul by (apply Z.pow_nonzero; lia).
      assert (0 < 2 ^ t) by (apply Z.pow_pos_nonneg; lia). nia.
Qed.

(** Aligning a representable integer to the exponent of [8.0f]. *)
Lemma exact_align (n : Z) (s : bool) (m : positive) (t : Z) :
  8 <= Z.abs n -> F32.representable n ->
  F32.exact n = S754_finite s m t ->
  Z.min t (-20) = -20 /\
  cond_Zopp s (Z.pos (fst (shl_align m t (-20)))) = n * 2 ^ 20.
Proof.
  intros Hn Hrep Hex.
  destruct (exact_finite n ltac:(lia) Hrep) as [m0 [t0 [Hex0 [Ht0 Hm0]]]].
  rewrite Hex0 in Hex. injection Hex as <- <- <-.
  assert (Hl : 3 <= Z.log2 (Z.abs n)).
  { change 3 with (Z.log2 8). apply Z.log2_le_mono. lia. }
  assert (Ht : -20 <= t0) by lia.
  split; [lia|].
  assert (Hshift : Z.pos m0 * 2 ^ (t0 + 20) = Z.abs n * 2 ^ 20).
  { apply (Z.mul_reg_r _ _ (2 ^ 129)); [apply Z.pow_nonzero; lia|].
    rewrite <- !Z.mul_assoc, <- !Z.pow_add_r by lia.
    replace (t0 + 20 + 129) with (t0 + 149) by lia. exact Hm0. }
  assert (Hal : Z.pos (fst (shl_align m0 t0 (-20))) = Z.abs n * 2 ^ 20).
  { unfold shl_align. destruct (-20 - t0) as [|d|d] eqn:Ed; cbn [fst]; try lia.
    - replace (t0 + 20) with 0 in Hshift by lia. lia.
    - rewrite Zpos_iter_xO. replace (Z.pos d) with (t0 + 20) by lia.
      exact Hshift. }
  rewrite Hal. destruct (Z.ltb_spec n 0); unfold cond_Zopp; lia.
Qed.

Lemma add8 (k : Z) :
  -16777216 <= k < 16777216 ->
  SFadd 24 128 (F32.exact (8 * k)) (S754_finite false 8388608 (-20))
  = F32.exact (8 * k + 8).
Proof.
  intros Hk. destruct (Z.eq_dec k 0) as [->|Hk0]; [reflexivity|].
  destruct (exact_finite (8 * k) ltac:(lia) (representable_8 k ltac:(lia)))
    as [m [t [Hex _]]].
  destruct (exact_align (8 * k) _ m t ltac:(lia) (representable_8 k ltac:(lia)) Hex)
    as [Hmin Hal].
  rewrite Hex. cbn [SFadd]. rewrite Hmin, Hal.
  change (cond_Zopp false (Z.pos (fst (shl_align 8388608 (-20) (-20)))))
    with (8 * 2 ^ 20).
  replace (8 * k * 2 ^ 20 + 8 * 2 ^ 20) with ((8 * (k + 1)) * 2 ^ (- (-20))) by
    (change (- (-20)) with 20; lia).
  rewrite normalize_exact; [f_equal; lia|lia|apply representable_8; lia].
Qed.

Lemma sub8 (k : Z) :
  -16777216 < k <= 16777216 ->
  SFsub 24 128 (F32.exact (8 * k)) (S754_finite false 8388608 (-20))
  = F32.exact (8 * k - 8).
Proof.
  intros Hk. destruct (Z.eq_dec k 0) as [->|Hk0]; [reflexivity|].
  destruct (exact_finite (8 * k) ltac:(lia) (representable_8 k ltac:(lia)))
    as [m [t [Hex _]]].
  destruct (exact_align (8 * k) _ m t ltac:(lia) (representable_8 k ltac:(lia)) Hex)
    as [Hmin Hal].
  rewrite Hex. cbn [SFsub]. rewrite Hmin, Hal.
  change (cond_Zopp false (Z.pos (fst (shl_align 8388608 (-20) (-20)))))
    with (8 * 2 ^ 20).
  replace (8 * k * 2 ^ 20 - 8 * 2 ^ 20) with ((8 * (k - 1)) * 2 ^ (- (-20))) by
    (change (- (-20)) with 20; lia).
  rewrite normalize_exact; [f_equal; lia|lia|apply representable_8; lia].
Qed.

Lemma of_int_exact (n : Z) :
  F32.representable n -> binary_normalize 24 128 n 0 false = F32.exact n.
Proof.
  intros H. rewrite <- (normalize_exact n 0 ltac:(lia) H).
  f_equal. simpl. lia.
Qed.

Lemma scaled_exact (n : Z) :
  F32.representable n -> F32.scaled (F32.exact n) = Some (n * 2 ^ 149).
Proof.
  intros Hrep. destruct (Z.eq_dec n 0) as [->|Hn]; [reflexivity|].
  destruct (exact_finite n Hn Hrep) as [m [t [-> [_ Hm]]]].
  unfold F32.scaled. f_equal.
  destruct (Z.ltb_spec n 0); unfold cond_Zopp; lia.
Qed.

(** The conversion from [int] and the two operations of [Hero::update]
    are exact on the multiples of 8 up to [2^27]. *)
Lemma F32_of_int_8 (k : Z) :
  Z.abs k <= 16777216 -> F32.of_int (8 * k) = F32.exact (8 * k).
Proof. intros H. apply of_int_exact, representable_8, H. Qed.

Lemma F32_add_8 (k : Z) :
  -16777216 <= k < 16777216 ->
  F32.add (F32.of_int (8 * k)) F32.lit_8_0 = F32.of_int (8 * k + 8).
Proof.
  intros H. replace (8 * k + 8) with (8 * (k + 1)) by lia.
  rewrite !F32_of_int_8 by lia.
  replace (8 * (k + 1)) with (8 * k + 8) by lia. apply add8. exact H.
Qed.

Lemma F32_sub_8 (k : Z) :
  -16777216 < k <= 16777216 ->
  F32.sub (F32.of_int (8 * k)) F32.lit_8_0 = F32.of_int (8 * k - 8).
Proof.
  intros H. replace (8 * k - 8) with (8 * (k - 1)) by lia.
  rewrite !F32_of_int_8 by lia.
  replace (8 * (k - 1)) with (8 * k - 8) by lia. apply sub8. exact H.
Qed.

Lemma F32_scaled_of_int_8 (k : Z) :
  Z.abs k <= 16777216 ->
  F32.scaled (F32.of_int (8 * k)) = Some (8 * k * 2 ^ 149).
Proof.
  intros H. rewrite F32_of_int_8 by exact H.
  apply scaled_exact, representable_8, H.
Qed.

(** ** Ticks *)

Lemma Hero_init_position :
  Hero.init = {| Hero.x_ := F32.of_int 128; Hero.y_ := F32.of_int 128 |}.
Proof. reflexivity. Qed.

Lemma right_only_tick (y : spec_float) (k : Z) :
  -16777216 <= k < 16777216 ->
  Hero.update (keyStateBody [39%nat])
    {| Hero.x_ := F32.of_int (8 * k); Hero.y_ := y |}
  = Ok {| Hero.x_ := F32.of_int (8 * k + 8); Hero.y_ := y |}.
Proof.
  intros H. rewrite Hero_update_covered by (vm_compute; discriminate).
  change (pressed (keyStateBody [39%nat]) ArrowLeft) with false.
  change (pressed (keyStateBody [39%nat]) ArrowUp) with false.
  change (pressed (keyStateBody [39%nat]) ArrowRight) with true.
  change (pressed (keyStateBody [39%nat]) ArrowDown) with false.
  unfold displace. cbn [Hero.x_ Hero.y_]. rewrite F32_add_8 by exact H.
  reflexivity.
Qed.

(** Holding the right key from the start: after [n] ticks the hero is
    at [128 + 8 n], as long as this is at most [2^27]. *)
Lemma ticks_right (n : positive) :
  Z.pos n <= 16777200 ->
  ticks (keyStateBody [39%nat]) n Hero.init
  = Ok {| Hero.x_ := F32.of_int (8 * (16 + Z.pos n)); Hero.y_ := F32.of_int 128 |}.
Proof.
  unfold ticks. induction n as [|n IH] using Pos.peano_ind; intros H.
  - cbn [Pos.iter bind]. rewrite Hero_init_position.
    change 128 with (8 * 16) at 1. rewrite right_only_tick by lia.
    do 2 f_equal.
  - rewrite Pos.iter_succ, IH by lia. cbn [bind].
    rewrite right_only_tick by lia. do 2 f_equal. f_equal. lia.
Qed.

(** ** The frame of one tick *)

(** One POST on a well-formed canvas: the hero is displaced by the
    pressed keys, and the frame is black except for the red square
    that [drawRect] clamps from the hero's truncated corner. *)
Lemma update_frame (body : string) (w : World) (x y : Z) :
  Canvas.wf (canvas w) ->
  41 <= Z.of_nat (String.length body) ->
  let h := displace (pressed body ArrowLeft) (pressed body ArrowUp)
                    (pressed body ArrowRight) (pressed body ArrowDown) (hero w) in
  F32.to_int (F32.sub (Hero.x_ h) F32.lit_4_0) = Ok x ->
  F32.to_int (F32.sub (Hero.y_ h) F32.lit_4_0) = Ok y ->
  exists cv,
    update body w = Ok (Canvas.toString cv, {| canvas := cv; hero := h |})
    /\ Canvas.wf cv
    /\ forall p, Canvas.inside p ->
         pixel cv p = if drawn x y 8 8 p then [255; 0; 0; 255] else [0; 0; 0; 255].
Proof.
  intros Hwf Hlen h Hx Hy. unfold update.
  rewrite (Hero_update_covered body (hero w) Hlen). fold h. cbn [bind].
  destruct (clear_spec (canvas w) Hwf) as [cv1 [Hclear [Hwf1 Hblack]]].
  rewrite Hclear. cbn [bind]. unfold Hero.draw. rewrite Hx, Hy. cbn [bind].
  change (F32.to_int (F32.mul F32.lit_2_0 F32.lit_4_0)) with (Ok (A:=Z) 8).
  cbn [bind].
  destruct (drawRect_spec x y 8 8 (Color.make 255 0 0) cv1 Hwf1)
    as [cv [Hdraw [Hwf2 Hpix]]].
  rewrite Hdraw. cbn [bind]. exists cv. split; [reflexivity|].
  split; [exact Hwf2|]. intros p Hp. rewrite (Hpix p Hp), (Hblack p Hp).
  reflexivity.
Qed.

(* ===================================================================== *)
(** * Claims                                                              *)
(* ===================================================================== *)

(** C1, as stated, fails in its second half: the rectangle of
    [drawRect(INT_MIN, 0, -1, 1)] holds no pixel at all, so it lies
    fully outside the buffer, yet the sum [x + w] wraps around to the
    greatest [int], the clamped width is 256 and the call paints the
    256 pixels of row 0. (The writes still stay inside the store.) *)
Lemma drawRect_wrapped_sum_counterexample :
  Canvas.rect_outside Int.min_int 0 (-1) 1
  /\ length (Canvas.drawRect_pixels Int.min_int 0 (-1) 1) = 256%nat
  /\ In (0, 0) (Canvas.drawRect_pixels Int.min_int 0 (-1) 1)
  /\ exists cv',
       Canvas.drawRect Int.min_int 0 (-1) 1 (Color.make 255 0 0) Canvas.make
       = Ok cv'
       /\ pixel cv' (0, 0) = [255; 0; 0; 255]
       /\ cv' <> Canvas.make.
Proof.
  split.
  { intros px py Hx _. unfold Int.min_int in Hx. lia. }
  split; [vm_compute; reflexivity|].
  split; [vm_compute; left; reflexivity|].
  destruct (drawRect_spec Int.min_int 0 (-1) 1 (Color.make 255 0 0)
              Canvas.make make_wf) as [cv' [Hd [_ Hpix]]].
  assert (Hin : Canvas.inside (0, 0)) by (vm_compute; intuition discriminate).
  assert (Hdr : drawn Int.min_int 0 (-1) 1 (0, 0) = true)
    by (vm_compute; reflexivity).
  assert (Hred : pixel cv' (0, 0) = [255; 0; 0; 255]).
  { rewrite (Hpix (0, 0) Hin), Hdr. reflexivity. }
  exists cv'. split; [exact Hd|]. split; [exact Hred|].
  intros E. rewrite E in Hred. unfold pixel, Canvas.byte_at, Canvas.make in Hred.
  cbn [Canvas.data map] in Hred. rewrite !nth_repeat in Hred. discriminate Hred.
Qed.

(** C1, amended. For all integer arguments (negative or oversized origins and
    sizes included, with [int] arithmetic wrapping), every pixel that
    [drawRect] hands to [setPixel] lies in [0,WIDTH) x [0,HEIGHT) and
    each of its four byte offsets lies in the backing store; the call
    succeeds, keeps the size of the store and leaves every other byte
    as it was. A rectangle with no pixel inside the raster visits no
    pixel and returns the canvas unchanged: this for every origin and
    all non-negative sizes, and for a negative size as long as the sum
    [x + w] (or [y + h]) is not below the least [int], where C++ leaves
    it undefined. *)
Theorem drawRect_stays_in_buffer (x y w h : Z) (c : Color.t) (cv : Canvas.t) :
  Canvas.wf cv ->
  Forall (fun p => Canvas.inside p /\
                   Forall (fun i => 0 <= i < Canvas.size cv) (Canvas.pixel_bytes p))
         (Canvas.drawRect_pixels x y w h)
  /\ (exists cv',
         Canvas.drawRect x y w h c cv = Ok cv' /\ Canvas.wf cv' /\
         forall i, 0 <= i ->
           ~ In i (flat_map Canvas.pixel_bytes (Canvas.drawRect_pixels x y w h)) ->
           Canvas.byte_at cv' i = Canvas.byte_at cv i)
  /\ (Int.in_range x -> Int.in_range y -> Int.in_range w -> Int.in_range h ->
      0 <= w \/ Int.min_int <= x + w ->
      0 <= h \/ Int.min_int <= y + h ->
      Canvas.rect_outside x y w h ->
      Canvas.drawRect_pixels x y w h = [] /\
      Canvas.drawRect x y w h c cv = Ok cv).
Proof.
  intros Hwf.
  assert (Hall : Forall Canvas.inside (Canvas.drawRect_pixels x y w h)).
  { apply Forall_forall. intros p Hp. eapply drawRect_pixels_inside; eassumption. }
  split; [|split].
  - apply Forall_forall. intros p Hp.
    pose proof (drawRect_pixels_inside _ _ _ _ _ Hp) as Hin.
    split; [exact Hin|].
    unfold Canvas.pixel_bytes. rewrite (int_offset_inside p Hin).
    destruct (offset_inside p Hin) as [H0 H1]. rewrite Hwf.
    repeat constructor; lia.
  - rewrite drawRect_fill.
    destruct (fill_spec _ c cv Hwf Hall) as [cv' [Hfill [Hwf' Hbytes]]].
    exists cv'. split; [exact Hfill|]. split; [exact Hwf'|].
    intros i Hi Hni. rewrite (Hbytes i Hi).
    rewrite (existsb_covers_false i _ Hni Hall). reflexivity.
  - intros Hx Hy Hw Hh Hxw Hyh Hout.
    assert (Hxw' : Int.min_int <= x + w) by int_range.
    assert (Hyh' : Int.min_int <= y + h) by int_range.
    pose proof (drawRect_pixels_outside x y w h Hx Hy Hw Hh Hxw' Hyh' Hout) as E.
    split; [exact E|]. rewrite drawRect_fill, E. reflexivity.
Qed.

Lemma drawRect_stays_in_buffer_witness :
  Canvas.drawRect 300 (-50) 20 10 (Color.make 255 0 0) Canvas.make
  = Ok Canvas.make.
Proof.
  destruct (drawRect_stays_in_buffer 300 (-50) 20 10 (Color.make 255 0 0)
              Canvas.make make_wf) as [_ [_ H]].
  apply H; unfold Int.in_range, Int.min_int, Int.max_int; try lia.
  unfold Canvas.rect_outside, Canvas.inside, Canvas.WIDTH, Canvas.HEIGHT.
  simpl. lia.
Defined.

(** C2, as stated, fails: on the empty body the read at index 37 is
    beyond the body, [isKeyDown] has no defined result (it is not "not
    pressed"), and neither has [Hero::update]. *)
Lemma isKeyDown_short_body_counterexample :
  Z.of_nat (String.length "") <= KeyCode_int ArrowLeft
  /\ isKeyDown "" ArrowLeft <> Ok false
  /\ forall h : Hero.t, Hero.update "" h <> Ok h.
Proof.
  split; [simpl; lia|]. split; [discriminate|].
  intros h. discriminate.
Qed.

(** C2, amended. For every key-state body of at least 41 characters
    (one that covers the key codes 37 to 40), the query of each arrow
    key returns, without failing, whether the character at its index is
    '1', and [Hero::update] returns the hero displaced by the pressed
    keys only: a key whose character is not '1' moves nothing. *)
Theorem isKeyDown_within_body (body : string) (h : Hero.t) :
  41 <= Z.of_nat (String.length body) ->
  (forall k : KeyCode, isKeyDown body k = Ok (pressed body k))
  /\ Hero.update body h
     = Ok (displace (pressed body ArrowLeft) (pressed body ArrowUp)
                    (pressed body ArrowRight) (pressed body ArrowDown) h)
  /\ (pressed body ArrowLeft = false -> pressed body ArrowRight = false ->
      forall h', Hero.update body h = Ok h' -> Hero.x_ h' = Hero.x_ h)
  /\ (pressed body ArrowUp = false -> pressed body ArrowDown = false ->
      forall h', Hero.update body h = Ok h' -> Hero.y_ h' = Hero.y_ h).
Proof.
  intros H. split; [|split; [|split]].
  - intros k. apply isKeyDown_covered. destruct k; simpl; lia.
  - apply Hero_update_covered. exact H.
  - intros Hl Hr h'. rewrite (Hero_update_covered body h H), Hl, Hr.
    intros E. injection E as <-. reflexivity.
  - intros Hu Hd h'. rewrite (Hero_update_covered body h H), Hu, Hd.
    intros E. injection E as <-.
    unfold displace. cbn [Hero.y_]. reflexivity.
Qed.

Lemma isKeyDown_within_body_witness :
  isKeyDown (keyStateBody [39%nat]) ArrowRight = Ok true
  /\ isKeyDown (keyStateBody [39%nat]) ArrowLeft = Ok false.
Proof.
  destruct (isKeyDown_within_body (keyStateBody [39%nat]) Hero.init) as [H _].
  - vm_compute. discriminate.
  - split; [rewrite (H ArrowRight)|rewrite (H ArrowLeft)]; reflexivity.
Defined.

(** C3 (the code departs from the claim). A [recv] that returns -1:
    [buf.resize(readSize)] runs before the test [readSize == -1], the
    conversion to [size_t] gives [2^64 - 1], [resize] throws
    [std::length_error], nothing catches it: the process terminates,
    the connection is not closed and no later connection is accepted,
    whatever the script holds next. *)
Theorem recv_error_terminates_process
        (p : Session.Proc) (buf : string) (dt late : N)
        (rest : list Session.Recv) (later : list Session.Accept) :
  Session.runConnectionLoop
    ({| Session.acceptedFd := 4;
        Session.reads :=
          {| Session.readSize := -1; Session.buffer := buf;
             Session.elapsed := dt; Session.overslept := late |} :: rest |}
       :: later) p
  = (Session.Terminated length_error,
     {| Session.world := Session.world p;
        Session.now := Session.now p + Z.of_N dt |},
     [Session.EvAccept 4; Session.EvRecv 4 (-1)]).
Proof. reflexivity. Qed.



(** C5. Whenever [createResponseBody] returns a body, [createResponse]
    returns exactly "HTTP/1.1 200 OK\r\nContent-Type: text/html\r\n
    Content-Length: <n>\r\n\r\n<body>" with <n> the decimal numeral of
    the length of the body, and the state [createResponseBody] left;
    when it does not return, no response is produced. There is no other
    status line or header. *)
Theorem createResponse_format (request : string) (w : World) :
  createResponse request w =
  match createResponseBody request w with
  | Ok (body, w') =>
      Ok (("HTTP/1.1 200 OK" ++ CRLF ++ "Content-Type: text/html" ++ CRLF
           ++ "Content-Length: " ++ to_string (Z.of_nat (String.length body))
           ++ CRLF ++ CRLF ++ body)%string, w')
  | Throw e => Throw e
  | Undefined => Undefined
  end
  /\ forall body : string,
      option_map Z.of_int
        (NilZero.int_of_string (to_string (Z.of_nat (String.length body))))
      = Some (Z.of_nat (String.length body)).
Proof.
  split; [|intros body; apply to_string_reads_back].
  unfold createResponse.
  destruct (createResponseBody request w) as [[body w']| |]; cbn [bind fst snd];
    try reflexivity.
  unfold createResponseHeader. f_equal. f_equal.
  rewrite !append_assoc. reflexivity.
Qed.

(** C6. Clearing a canvas and serialising it gives "[" , the 262144
    bytes of the store in decimal separated by commas, "]"; the store
    is 65536 times the bytes 0,0,0,255 in row-major pixel order, so the
    text between the brackets is 65536 times "0,0,0,255" joined by
    commas. *)
Theorem clear_then_toString (cv : Canvas.t) :
  Canvas.wf cv ->
  exists cv',
    Canvas.clear cv = Ok cv' /\
    Canvas.data cv' =
      concat (repeat [0; 0; 0; 255] (Z.to_nat (Canvas.WIDTH * Canvas.HEIGHT))) /\
    Z.of_nat (length (Canvas.data cv')) = 262144 /\
    Canvas.toString cv' =
      ("[" ++ String.concat "," (map to_string (Canvas.data cv')) ++ "]")%string /\
    Canvas.toString cv' =
      ("[" ++ String.concat ","
                (repeat "0,0,0,255"%string
                        (Z.to_nat (Canvas.WIDTH * Canvas.HEIGHT))) ++ "]")%string.
Proof.
  intros Hwf. destruct (clear_spec cv Hwf) as [cv' [Hc [Hwf' Hpix]]].
  exists cv'. split; [exact Hc|].
  pose proof (uniform_data cv' _ Hwf' Hpix) as Hdata.
  split; [exact Hdata|]. split; [exact Hwf'|].
  unfold Canvas.toString. rewrite toString_loop_join.
  split; [reflexivity|].
  rewrite Hdata, join_pixels. reflexivity.
Qed.

Lemma clear_then_toString_witness :
  exists cv',
    Canvas.clear Canvas.make = Ok cv' /\
    Canvas.toString cv' =
      ("[" ++ String.concat ","
                (repeat "0,0,0,255"%string
                        (Z.to_nat (Canvas.WIDTH * Canvas.HEIGHT))) ++ "]")%string.
Proof.
  destruct (clear_then_toString Canvas.make make_wf) as [cv' [Hc [_ [_ [_ Hs]]]]].
  exists cv'. split; [exact Hc|exact Hs].
Defined.

(** C7, as stated, fails at the ends of the range the hero can reach.
    Holding the right key for 16777200 ticks from the start brings the
    hero to [x = 2^27]; there binary32 has no [x + 8], and one more
    right-only tick leaves [x] as it is. At [x = -2^27], left and right
    pressed together give [(x - 8) + 8 = x + 8], not [x]. *)
Lemma Hero_update_saturates_counterexample :
  ticks (keyStateBody [39%nat]) 16777200 Hero.init
  = Ok {| Hero.x_ := F32.of_int 134217728; Hero.y_ := F32.of_int 128 |}
  /\ Hero.update (keyStateBody [39%nat])
       {| Hero.x_ := F32.of_int 134217728; Hero.y_ := F32.of_int 128 |}
     = Ok {| Hero.x_ := F32.of_int 134217728; Hero.y_ := F32.of_int 128 |}
  /\ F32.scaled (F32.of_int 134217728) = Some (134217728 * 2 ^ 149)
  /\ Hero.update (keyStateBody [37%nat; 39%nat])
       {| Hero.x_ := F32.of_int (-134217728); Hero.y_ := F32.of_int 128 |}
     = Ok {| Hero.x_ := F32.of_int (-134217720); Hero.y_ := F32.of_int 128 |}.
Proof.
  split; [|split; [|split]].
  - rewrite ticks_right by lia. reflexivity.
  - vm_compute. reflexivity.
  - vm_compute. reflexivity.
  - vm_compute. reflexivity.
Qed.

(** C7, amended. For every key-state body of at least 41 characters:
    with none of the four arrow keys pressed the position is unchanged,
    whatever it is; at a position [(8 i, 8 j)] with
    [-2^24 < i, j < 2^24] (every position the hero reaches from the
    start in fewer than [2^24 - 16] ticks), a body with only ArrowRight
    pressed changes [x] to exactly [x + 8] and leaves [y], and two
    opposing keys pressed together leave their coordinate unchanged. *)
Theorem Hero_update_exact_steps (body : string) :
  41 <= Z.of_nat (String.length body) ->
  (forall h : Hero.t,
      (forall k, pressed body k = false) -> Hero.update body h = Ok h)
  /\ forall i j : Z,
      -16777216 < i < 16777216 -> -16777216 < j < 16777216 ->
      let h := {| Hero.x_ := F32.of_int (8 * i); Hero.y_ := F32.of_int (8 * j) |} in
      F32.scaled (Hero.x_ h) = Some (8 * i * 2 ^ 149)
      /\ F32.scaled (F32.of_int (8 * i + 8)) = Some ((8 * i + 8) * 2 ^ 149)
      /\ (pressed body ArrowRight = true ->
          pressed body ArrowLeft = false ->
          pressed body ArrowUp = false ->
          pressed body ArrowDown = false ->
          Hero.update body h
          = Ok {| Hero.x_ := F32.of_int (8 * i + 8); Hero.y_ := F32.of_int (8 * j) |})
      /\ (pressed body ArrowLeft = true -> pressed body ArrowRight = true ->
          forall h', Hero.update body h = Ok h' -> Hero.x_ h' = Hero.x_ h)
      /\ (pressed body ArrowUp = true -> pressed body ArrowDown = true ->
          forall h', Hero.update body h = Ok h' -> Hero.y_ h' = Hero.y_ h).
Proof.
  intros Hlen. split.
  - intros h Hnone. rewrite (Hero_update_covered body h Hlen), !Hnone.
    destruct h; reflexivity.
  - intros i j Hi Hj h. split; [|split; [|split; [|split]]].
    + apply F32_scaled_of_int_8. lia.
    + replace (8 * i + 8) with (8 * (i + 1)) by lia.
      apply F32_scaled_of_int_8. lia.
    + intros Hr Hl Hu Hd.
      rewrite (Hero_update_covered body h Hlen), Hr, Hl, Hu, Hd.
      unfold displace, h. cbn [Hero.x_ Hero.y_].
      rewrite F32_add_8 by lia. reflexivity.
    + intros Hl Hr h'.
      rewrite (Hero_update_covered body h Hlen), Hl, Hr.
      intros E. injection E as <-. unfold displace, h. cbn [Hero.x_ Hero.y_].
      rewrite F32_sub_8 by lia.
      replace (8 * i - 8) with (8 * (i - 1)) by lia.
      rewrite F32_add_8 by lia. f_equal. lia.
    + intros Hu Hd h'.
      rewrite (Hero_update_covered body h Hlen), Hu, Hd.
      intros E. injection E as <-. unfold displace, h. cbn [Hero.x_ Hero.y_].
      rewrite F32_sub_8 by lia.
      replace (8 * j - 8) with (8 * (j - 1)) by lia.
      rewrite F32_add_8 by lia. f_equal. lia.
Qed.

Lemma Hero_update_exact_steps_witness :
  Hero.update (keyStateBody []) Hero.init = Ok Hero.init
  /\ Hero.update (keyStateBody [39%nat])
       {| Hero.x_ := F32.of_int (8 * 16); Hero.y_ := F32.of_int (8 * 16) |}
     = Ok {| Hero.x_ := F32.of_int (8 * 16 + 8); Hero.y_ := F32.of_int (8 * 16) |}.
Proof.
  split.
  - destruct (Hero_update_exact_steps (keyStateBody [])) as [H _].
    + vm_compute. discriminate.
    + apply H. intros k. destruct k; reflexivity.
  - destruct (Hero_update_exact_steps (keyStateBody [39%nat])) as [_ H].
    + vm_compute. discriminate.
    + destruct (H 16 16) as [_ [_ [Hr _]]]; [lia|lia|].
      apply Hr; reflexivity.
Defined.

(** C8 (the code departs from the claim). A request whose line begins
    with "POST" but that holds no CRLF-CRLF: [find] returns [npos],
    [npos + 4] wraps to 3, and the body returned is the request from
    its fourth character on, not what follows a separator. *)
Theorem getRequestBody_without_separator :
  getRequestLine ("POST / HTTP/1.1" ++ CRLF ++ "Host: x" ++ CRLF)
  = Ok "POST / HTTP/1.1"%string
  /\ find ("POST / HTTP/1.1" ++ CRLF ++ "Host: x" ++ CRLF) (CRLF ++ CRLF)
     = SizeT.npos
  /\ SizeT.add SizeT.npos 4 = 3
  /\ getRequestBody ("POST / HTTP/1.1" ++ CRLF ++ "Host: x" ++ CRLF)
     = Ok ("T / HTTP/1.1" ++ CRLF ++ "Host: x" ++ CRLF)%string.
Proof. repeat split; vm_compute; reflexivity. Qed.

(** C9. In one run of [runReceiveSendLoop] the n-th time point handed
    to [sleep_until] is the instant the loop started plus n times 100
    ms, whatever time the reads, the handler and the sleeps took, and
    the n-th [send] happens at or after it. *)
Theorem send_paced_by_deadlines (fd : Z) (script : list Session.Recv)
        (p : Session.Proc) :
  let evs := snd (Session.runReceiveSendLoop fd script p) in
  Session.deadlines evs
  = map (fun n => Session.now p + Z.of_nat n * 100000000)
        (seq 0 (length (Session.deadlines evs)))
  /\ length (Session.send_times evs) = length (Session.deadlines evs)
  /\ Forall2 Z.le (Session.deadlines evs) (Session.send_times evs).
Proof.
  intros evs.
  destruct (receiveSendLoop_pacing fd (Session.now p) script p) as [Hd Hs].
  fold (Session.runReceiveSendLoop fd script p) in Hd, Hs. fold evs in Hd, Hs.
  split; [exact Hd|]. split; [|exact Hs].
  symmetry. eapply Forall2_length. exact Hs.
Qed.

(** C10, as stated, fails: [update] moves the hero before it draws, so
    a first POST with ArrowRight pressed shows the square at
    [132,140) x [124,132), centred at (136, 128): pixel (124, 124) is
    black and pixel (139, 131) is red. *)
Lemma first_frame_counterexample :
  exists cv,
    update (keyStateBody [39%nat]) World_init
    = Ok (Canvas.toString cv,
          {| canvas := cv;
             hero := {| Hero.x_ := F32.of_int 136; Hero.y_ := F32.of_int 128 |} |})
    /\ pixel cv (124, 124) = [0; 0; 0; 255]
    /\ pixel cv (139, 131) = [255; 0; 0; 255].
Proof.
  assert (Hlen : 41 <= Z.of_nat (String.length (keyStateBody [39%nat])))
    by (vm_compute; discriminate).
  assert (Hh : displace (pressed (keyStateBody [39%nat]) ArrowLeft)
                        (pressed (keyStateBody [39%nat]) ArrowUp)
                        (pressed (keyStateBody [39%nat]) ArrowRight)
                        (pressed (keyStateBody [39%nat]) ArrowDown)
                        (hero World_init)
               = {| Hero.x_ := F32.of_int 136; Hero.y_ := F32.of_int 128 |})
    by reflexivity.
  destruct (update_frame (keyStateBody [39%nat]) World_init 132 124 make_wf Hlen)
    as [cv [Hu [_ Hpix]]].
  { rewrite Hh. reflexivity. }
  { rewrite Hh. reflexivity. }
  rewrite Hh in Hu.
  exists cv. split; [exact Hu|]. split.
  - rewrite Hpix by (vm_compute; intuition discriminate). reflexivity.
  - rewrite Hpix by (vm_compute; intuition discriminate). reflexivity.
Qed.

(** C10, amended. At process start the hero is at x = 0.5f * 256 =
    128.0 and y = 128.0. A first POST in which none of the four arrow
    keys is pressed (and whose body has at least 41 characters) leaves
    it there and returns the serialisation of a canvas that is red
    (255,0,0,255) on the 8x8 square [124,132) x [124,132), centred at
    (128, 128), and black (0,0,0,255) elsewhere. *)
Theorem first_frame_centered (body : string) :
  Hero.x_ (hero World_init) = F32.mul F32.lit_0_5 (F32.of_int 256)
  /\ Hero.x_ (hero World_init) = F32.of_int 128
  /\ Hero.y_ (hero World_init) = F32.of_int 128
  /\ F32.scaled (F32.of_int 128) = Some (128 * 2 ^ 149)
  /\ (41 <= Z.of_nat (String.length body) ->
      (forall k, pressed body k = false) ->
      exists cv,
        update body World_init
        = Ok (Canvas.toString cv, {| canvas := cv; hero := Hero.init |})
        /\ forall p, Canvas.inside p ->
             pixel cv p =
             if (124 <=? fst p) && (fst p <? 132) && (124 <=? snd p) && (snd p <? 132)
             then [255; 0; 0; 255] else [0; 0; 0; 255]).
Proof.
  split; [reflexivity|]. split; [reflexivity|]. split; [reflexivity|].
  split; [vm_compute; reflexivity|].
  intros Hlen Hnone.
  assert (Hh : displace (pressed body ArrowLeft) (pressed body ArrowUp)
                        (pressed body ArrowRight) (pressed body ArrowDown)
                        (hero World_init) = Hero.init).
  { rewrite !Hnone. reflexivity. }
  destruct (update_frame body World_init 124 124 make_wf Hlen)
    as [cv [Hu [_ Hpix]]].
  - rewrite Hh. reflexivity.
  - rewrite Hh. reflexivity.
  - rewrite Hh in Hu. exists cv. split; [exact Hu|exact Hpix].
Qed.

Lemma first_frame_centered_witness :
  exists cv,
    update (keyStateBody []) World_init
    = Ok (Canvas.toString cv, {| canvas := cv; hero := Hero.init |})
    /\ pixel cv (124, 124) = [255; 0; 0; 255]
    /\ pixel cv (131, 131) = [255; 0; 0; 255]
    /\ pixel cv (132, 131) = [0; 0; 0; 255].
Proof.
  destruct (first_frame_centered (keyStateBody [])) as [_ [_ [_ [_ H]]]].
  destruct H as [cv [Hu Hpix]].
  - vm_compute. discriminate.
  - intros k. destruct k; reflexivity.
  - exists cv. split; [exact Hu|].
    repeat split; rewrite Hpix by (vm_compute; intuition discriminate);
      reflexivity.
Defined.

(* ===================================================================== *)
(** * Further properties                                                  *)
(* ===================================================================== *)

(** ** The raster *)

(** Two canvases of the constructor's size with the same pixels are the
    same canvas. *)
Lemma canvas_ext (cv1 cv2 : Canvas.t) :
  Canvas.wf cv1 -> Canvas.wf cv2 ->
  (forall p, Canvas.inside p -> pixel cv1 p = pixel cv2 p) ->
  cv1 = cv2.
Proof.
  intros H1 H2 Hpix.
  assert (Hd : Canvas.data cv1 = Canvas.data cv2).
  { rewrite (data_pixels cv1 H1), (data_pixels cv2 H2).
    apply flat_map_ext_In. intros k Hk. apply in_seq in Hk.
    apply Hpix. apply pixel_of_index_inside. lia. }
  destruct cv1, cv2. simpl in Hd. subst. reflexivity.
Qed.

(** X1. On a canvas of the constructor's size, [setPixel] at a pixel
    inside the raster succeeds, keeps the size, sets that pixel to the
    four bytes of the colour and leaves every other pixel as it was. *)
Theorem setPixel_read_back (p q : Z * Z) (c : Color.t) (cv : Canvas.t) :
  Canvas.wf cv -> Canvas.inside p -> Canvas.inside q ->
  exists cv',
    Canvas.setPixel (fst p) (snd p) c cv = Ok cv' /\ Canvas.wf cv' /\
    pixel cv' q =
    if (fst q =? fst p) && (snd q =? snd p) then Color.bytes c else pixel cv q.
Proof.
  intros Hwf Hp Hq.
  pose proof (setPixel_inside p c cv Hwf Hp) as Hset.
  eexists. split; [exact Hset|]. split; [exact (setPixel_wf p c cv _ Hwf Hp Hset)|].
  destruct (offset_inside q Hq) as [H0 _].
  assert (Hk : forall k, 0 <= k < 4 ->
             Canvas.byte_at
               {| Canvas.data := Canvas.store (Z.to_nat (offset p)) (Color.bytes c)
                                              (Canvas.data cv) |} (offset q + k)
             = if (fst q =? fst p) && (snd q =? snd p)
               then nth (Z.to_nat ((0 + k) mod 4)) (Color.bytes c) 0
               else Canvas.byte_at cv (offset q + k)).
  { intros k Hk.
    rewrite (byte_at_setPixel p c cv _ (offset q + k) Hwf Hp ltac:(lia) Hset).
    rewrite offset_mod.
    destruct (covers (offset q + k) p) eqn:Hc.
    - apply covers_same in Hc; auto. subst q. rewrite !Z.eqb_refl. reflexivity.
    - destruct ((fst q =? fst p) && (snd q =? snd p)) eqn:E; [|reflexivity].
      apply andb_true_iff in E. destruct E as [E1 E2].
      apply Z.eqb_eq in E1, E2.
      assert (p = q) by (destruct p, q; simpl in *; congruence). subst q.
      rewrite (proj2 (covers_same p p k Hp Hp Hk) eq_refl) in Hc. discriminate. }
  unfold pixel at 1. cbn [map]. rewrite !Hk by lia.
  destruct ((fst q =? fst p) && (snd q =? snd p)); [|reflexivity].
  rewrite (bytes_nth c) at 5. reflexivity.
Qed.

Lemma setPixel_read_back_witness :
  exists cv',
    Canvas.setPixel 3 5 (Color.make 1 2 3) Canvas.make = Ok cv' /\
    pixel cv' (3, 5) = [1; 2; 3; 255] /\ pixel cv' (4, 5) = pixel Canvas.make (4, 5).
Proof.
  assert (Hin : forall a b, 0 <= a < 256 -> 0 <= b < 256 -> Canvas.inside (a, b)).
  { intros a b Ha Hb. unfold Canvas.inside, Canvas.WIDTH, Canvas.HEIGHT. simpl. lia. }
  destruct (setPixel_read_back (3, 5) (3, 5) (Color.make 1 2 3) Canvas.make make_wf)
    as [cv1 [H1 [_ P1]]]; [apply Hin; lia|apply Hin; lia|].
  destruct (setPixel_read_back (3, 5) (4, 5) (Color.make 1 2 3) Canvas.make make_wf)
    as [cv2 [H2 [_ P2]]]; [apply Hin; lia|apply Hin; lia|].
  simpl fst in *; simpl snd in *.
  rewrite H1 in H2. injection H2 as <-.
  exists cv1. split; [exact H1|]. split; [exact P1|exact P2].
Defined.

Lemma int_index (x y : Z) :
  -1000000 <= x <= 1000000 -> -1000000 <= y <= 1000000 ->
  Int.mul (Int.add x (Int.mul y Canvas.WIDTH)) Canvas.DEPTH
  = (x + y * Canvas.WIDTH) * Canvas.DEPTH.
Proof.
  intros Hx Hy. unfold Canvas.WIDTH, Canvas.DEPTH, Int.mul, Int.add.
  rewrite (wrap_in_range (y * 256)) by int_range.
  rewrite (wrap_in_range (x + y * 256)) by int_range.
  apply wrap_in_range. int_range.
Qed.

(** X2. [setPixel] does not look at its coordinates one by one, only at
    the linear index [x + y * WIDTH]: when the index is outside
    [0, WIDTH * HEIGHT) the store is outside the vector and has no
    defined result; when it is inside, the call does what [setPixel]
    does at the pixel of that index, so [setPixel(256, 0)] writes
    pixel (0, 1). *)
Theorem setPixel_linear_index (x y : Z) (c : Color.t) (cv : Canvas.t) :
  Canvas.wf cv ->
  -1000000 <= x <= 1000000 -> -1000000 <= y <= 1000000 ->
  let k := x + y * Canvas.WIDTH in
  (k < 0 \/ Canvas.WIDTH * Canvas.HEIGHT <= k ->
   Canvas.setPixel x y c cv = Undefined)
  /\ (0 <= k < Canvas.WIDTH * Canvas.HEIGHT ->
      Canvas.inside (k mod Canvas.WIDTH, k / Canvas.WIDTH) /\
      Canvas.setPixel x y c cv
      = Canvas.setPixel (k mod Canvas.WIDTH) (k / Canvas.WIDTH) c cv /\
      exists cv', Canvas.setPixel x y c cv = Ok cv').
Proof.
  intros Hwf Hx Hy k. split.
  - intros Hout. unfold Canvas.setPixel. rewrite (int_index x y Hx Hy), Hwf.
    fold k. unfold Canvas.WIDTH, Canvas.HEIGHT, Canvas.DEPTH in *.
    destruct (Z.leb_spec 0 (k * 4)); [|reflexivity].
    destruct (Z.leb_spec (k * 4 + 4) (256 * 256 * 4)); [lia|reflexivity].
  - intros Hk.
    assert (Hin : Canvas.inside (k mod Canvas.WIDTH, k / Canvas.WIDTH)).
    { unfold Canvas.inside, Canvas.WIDTH, Canvas.HEIGHT in *. simpl.
      pose proof (Z.mod_pos_bound k 256 ltac:(lia)).
      split; [lia|]. split; [apply Z.div_pos; lia|].
      apply Z.div_lt_upper_bound; lia. }
    split; [exact Hin|].
    assert (Heq : Canvas.setPixel x y c cv
                  = Canvas.setPixel (k mod Canvas.WIDTH) (k / Canvas.WIDTH) c cv).
    { unfold Canvas.setPixel. rewrite (int_index x y Hx Hy).
      pose proof (int_offset_inside _ Hin) as Ho. unfold offset in Ho.
      simpl fst in Ho; simpl snd in Ho. rewrite Ho.
      fold k.
      replace (k mod Canvas.WIDTH + k / Canvas.WIDTH * Canvas.WIDTH) with k;
        [reflexivity|].
      unfold Canvas.WIDTH. pose proof (Z.div_mod k 256 ltac:(lia)). lia. }
    split; [exact Heq|]. rewrite Heq.
    eexists. exact (setPixel_inside _ c cv Hwf Hin).
Qed.

Lemma setPixel_linear_index_witness :
  Canvas.setPixel 0 256 (Color.make 1 2 3) Canvas.make = Undefined
  /\ Canvas.setPixel (-1) 0 (Color.make 1 2 3) Canvas.make = Undefined
  /\ Canvas.setPixel 256 0 (Color.make 1 2 3) Canvas.make
     = Canvas.setPixel 0 1 (Color.make 1 2 3) Canvas.make.
Proof.
  split; [|split].
  - destruct (setPixel_linear_index 0 256 (Color.make 1 2 3) Canvas.make make_wf)
      as [H _]; try lia.
    apply H. unfold Canvas.WIDTH, Canvas.HEIGHT. lia.
  - destruct (setPixel_linear_index (-1) 0 (Color.make 1 2 3) Canvas.make make_wf)
      as [H _]; try lia.
    apply H. unfold Canvas.WIDTH, Canvas.HEIGHT. lia.
  - destruct (setPixel_linear_index 256 0 (Color.make 1 2 3) Canvas.make make_wf)
      as [_ H]; try lia.
    destruct H as [_ [H _]]; [unfold Canvas.WIDTH, Canvas.HEIGHT; lia|].
    exact H.
Defined.

(** ** Rectangles *)

Lemma drawn_rectangle (x y w h : Z) (p : Z * Z) :
  Int.in_range (x + w) -> Int.in_range (y + h) -> Canvas.inside p ->
  drawn x y w h p
  = (x <=? fst p) && (fst p <? x + w) && (y <=? snd p) && (snd p <? y + h).
Proof.
  intros Hxw Hyh [Hpx Hpy]. unfold drawn, Int.add.
  rewrite !wrap_in_range by assumption.
  unfold std_clamp, std_min, Canvas.WIDTH, Canvas.HEIGHT in *.
  destruct (Z.ltb_spec x 0), (Z.ltb_spec 256 x), (Z.ltb_spec 256 (x + w)),
    (Z.ltb_spec y 0), (Z.ltb_spec 256 y), (Z.ltb_spec 256 (y + h));
    repeat match goal with
           | |- context [?a <=? ?b] => destruct (Z.leb_spec a b)
           | |- context [?a <? ?b] => destruct (Z.ltb_spec a b)
           end; try reflexivity; try lia.
Qed.

(** X3. When the sums [x + w] and [y + h] are [int]s, [drawRect] on a
    canvas of the constructor's size succeeds and paints exactly the
    pixels of the raster that lie in [x, x+w) x [y, y+h): those get the
    bytes of the colour, all others keep theirs. *)
Theorem drawRect_fills_intersection (x y w h : Z) (c : Color.t) (cv : Canvas.t) :
  Canvas.wf cv -> Int.in_range (x + w) -> Int.in_range (y + h) ->
  exists cv',
    Canvas.drawRect x y w h c cv = Ok cv' /\ Canvas.wf cv' /\
    forall p, Canvas.inside p ->
      pixel cv' p =
      if (x <=? fst p) && (fst p <? x + w) && (y <=? snd p) && (snd p <? y + h)
      then Color.bytes c else pixel cv p.
Proof.
  intros Hwf Hxw Hyh.
  destruct (drawRect_spec x y w h c cv Hwf) as [cv' [Hd [Hwf' Hpix]]].
  exists cv'. split; [exact Hd|]. split; [exact Hwf'|].
  intros p Hp. rewrite (Hpix p Hp), (drawn_rectangle x y w h p Hxw Hyh Hp).
  reflexivity.
Qed.

Lemma drawRect_fills_intersection_witness :
  exists cv',
    Canvas.drawRect (-3) 250 10 100 (Color.make 9 8 7) Canvas.make = Ok cv' /\
    pixel cv' (6, 255) = [9; 8; 7; 255] /\
    pixel cv' (7, 255) = pixel Canvas.make (7, 255).
Proof.
  destruct (drawRect_fills_intersection (-3) 250 10 100 (Color.make 9 8 7)
              Canvas.make make_wf) as [cv' [Hd [_ Hpix]]]; try int_range.
  exists cv'. split; [exact Hd|].
  split; rewrite Hpix by (vm_compute; intuition discriminate); reflexivity.
Defined.

(** X4. Painting the same rectangle in the same colour a second time
    changes nothing, for all integer arguments. *)
Theorem drawRect_idempotent (x y w h : Z) (c : Color.t) (cv cv1 : Canvas.t) :
  Canvas.wf cv ->
  Canvas.drawRect x y w h c cv = Ok cv1 ->
  Canvas.drawRect x y w h c cv1 = Ok cv1.
Proof.
  intros Hwf H1.
  destruct (drawRect_spec x y w h c cv Hwf) as [cv1' [Hd [Hwf1 Hpix1]]].
  rewrite H1 in Hd. injection Hd as <-.
  destruct (drawRect_spec x y w h c cv1 Hwf1) as [cv2 [Hd2 [Hwf2 Hpix2]]].
  rewrite Hd2. f_equal. apply canvas_ext; auto.
  intros p Hp. rewrite (Hpix2 p Hp), (Hpix1 p Hp).
  destruct (drawn x y w h p); reflexivity.
Qed.

Lemma drawRect_idempotent_witness :
  exists cv1,
    Canvas.drawRect 10 10 5 5 (Color.make 255 0 0) Canvas.make = Ok cv1 /\
    Canvas.drawRect 10 10 5 5 (Color.make 255 0 0) cv1 = Ok cv1.
Proof.
  destruct (drawRect_spec 10 10 5 5 (Color.make 255 0 0) Canvas.make make_wf)
    as [cv1 [Hd _]].
  exists cv1. split; [exact Hd|].
  exact (drawRect_idempotent 10 10 5 5 _ Canvas.make cv1 make_wf Hd).
Defined.

(** ** The handler *)

Lemma clear_forgets (cv1 cv2 : Canvas.t) :
  Canvas.wf cv1 -> Canvas.wf cv2 -> Canvas.clear cv1 = Canvas.clear cv2.
Proof.
  intros H1 H2.
  destruct (clear_spec cv1 H1) as [c1 [E1 [W1 P1]]].
  destruct (clear_spec cv2 H2) as [c2 [E2 [W2 P2]]].
  rewrite E1, E2. f_equal. apply canvas_ext; auto.
  intros p Hp. rewrite (P1 p Hp), (P2 p Hp). reflexivity.
Qed.

(** X5. A frame is drawn from scratch: the result of [update] (text
    and new state, or failure) does not depend on what the canvas held
    before, only on the request body and the hero. *)
Theorem update_ignores_old_canvas (body : string) (h : Hero.t)
        (cv1 cv2 : Canvas.t) :
  Canvas.wf cv1 -> Canvas.wf cv2 ->
  update body {| canvas := cv1; hero := h |}
  = update body {| canvas := cv2; hero := h |}.
Proof.
  intros H1 H2. unfold update. cbn [canvas hero].
  rewrite (clear_forgets cv1 cv2 H1 H2). reflexivity.
Qed.

Lemma update_ignores_old_canvas_witness :
  exists cv1,
    Canvas.drawRect 10 10 5 5 (Color.make 255 0 0) Canvas.make = Ok cv1 /\
    update (keyStateBody []) {| canvas := cv1; hero := Hero.init |}
    = update (keyStateBody []) {| canvas := Canvas.make; hero := Hero.init |}.
Proof.
  destruct (drawRect_spec 10 10 5 5 (Color.make 255 0 0) Canvas.make make_wf)
    as [cv1 [Hd [Hwf _]]].
  exists cv1. split; [exact Hd|].
  exact (update_ignores_old_canvas (keyStateBody []) Hero.init cv1 Canvas.make
           Hwf make_wf).
Defined.

Lemma bind_no_throw {A B} (r : Result A) (k : A -> Result B) :
  no_throw r -> (forall a, r = Ok a -> no_throw (k a)) -> no_throw (r <- r ;; k r).
Proof.
  intros Hr Hk e. destruct r as [a| e' |]; cbn [bind].
  - apply (Hk a eq_refl).
  - exfalso. exact (Hr e' eq_refl).
  - discriminate.
Qed.

Lemma for_each_no_throw {I S} (l : list I) (body : I -> S -> Result S) (s : S) :
  (forall i s, no_throw (body i s)) -> no_throw (for_each l body s).
Proof.
  intros Hb. revert s. induction l as [|i l IH]; intros s; cbn [for_each].
  - intros e. discriminate.
  - apply bind_no_throw; [apply Hb|]. intros s' _. apply IH.
Qed.

Lemma drawRect_no_throw x y w h c cv : no_throw (Canvas.drawRect x y w h c cv).
Proof.
  unfold Canvas.drawRect. apply for_each_no_throw. intros yi s.
  apply for_each_no_throw. intros xi s'. unfold Canvas.setPixel.
  intros e. destruct (_ && _); discriminate.
Qed.

Lemma isKeyDown_no_throw body k : no_throw (isKeyDown body k).
Proof. unfold isKeyDown. intros e. destruct (get _ _); discriminate. Qed.

Lemma to_int_no_throw f : no_throw (F32.to_int f).
Proof.
  intros e. destruct f; cbn [F32.to_int]; try discriminate.
  destruct (_ && _); discriminate.
Qed.

Lemma update_no_throw body w : no_throw (update body w).
Proof.
  unfold update.
  apply bind_no_throw.
  { unfold Hero.update.
    repeat (apply bind_no_throw; [apply isKeyDown_no_throw|intros ? _]).
    intros e. discriminate. }
  intros h _. apply bind_no_throw; [apply drawRect_no_throw|]. intros cv _.
  apply bind_no_throw.
  { unfold Hero.draw.
    repeat (apply bind_no_throw; [apply to_int_no_throw|intros ? _]).
    apply drawRect_no_throw. }
  intros cv' _ e. discriminate.
Qed.

Lemma substring_length_le (n m : nat) (s : string) :
  (String.length (substring n m s) <= String.length s)%nat.
Proof.
  revert n m. induction s as [|a s IH]; intros n m.
  - destruct n, m; simpl; lia.
  - destruct n.
    + destruct m; simpl; [lia|]. specialize (IH 0%nat m). lia.
    + simpl. specialize (IH n m). lia.
Qed.

Lemma index_bound (pat s : string) (n i : nat) :
  pat <> ""%string ->
  index n pat s = Some i -> (i + String.length pat <= String.length s)%nat.
Proof.
  intros Hne H. pose proof (index_correct1 _ _ _ _ H) as Hsub.
  assert (Hgen : forall (t : string) (a b : nat),
             (0 < b)%nat ->
             String.length (substring a b t) = b -> (a + b <= String.length t)%nat).
  { clear. induction t as [|c t IH]; intros a b Hb Hl.
    - destruct a, b; simpl in *; lia.
    - destruct a.
      + destruct b as [|b]; [lia|]. simpl in *.
        destruct b as [|b]; [lia|].
        specialize (IH 0%nat (S b) ltac:(lia)). lia.
      + simpl in *. specialize (IH a b Hb Hl). lia. }
  apply Hgen; [destruct pat; [congruence|simpl; lia]|].
  rewrite Hsub. reflexivity.
Qed.

Lemma getRequestBody_total (request : string) :
  Z.of_nat (String.length request) < SizeT.modulus ->
  exists body, getRequestBody request = Ok body.
Proof.
  intros Hsize. unfold getRequestBody. rewrite getRequestLine_value. cbn [bind].
  set (line := substring 0 _ request).
  destruct (find line "POST" =? 0) eqn:Epost; cbn [negb]; [|eauto].
  apply find_zero_dec in Epost. destruct Epost as [rest Hline].
  assert (Hlen : (4 <= String.length request)%nat).
  { pose proof (substring_length_le 0
                  (Z.to_nat (Z.min (find request CRLF)
                                   (Z.of_nat (String.length request)))) request) as Hle.
    fold line in Hle. rewrite Hline, append_length in Hle. simpl in Hle. lia. }
  unfold substr, find, SizeT.add, SizeT.wrap.
  destruct (index 0 (CRLF ++ CRLF) request) as [i|] eqn:Ei.
  - apply index_bound in Ei; [|discriminate]. change (String.length (CRLF ++ CRLF)) with 4%nat in Ei.
    rewrite Z.mod_small by lia.
    destruct (Z.ltb_spec (Z.of_nat (String.length request)) (Z.of_nat i + 4));
      [lia|eauto].
  - change ((SizeT.npos + 4) mod SizeT.modulus) with 3.
    destruct (Z.ltb_spec (Z.of_nat (String.length request)) 3); [lia|eauto].
Qed.

(** X6. The handler never throws: for every request (shorter than
    [2^64] bytes) and every state, [createResponse] either returns a
    response or runs into a read or store with no defined result; no
    [std::out_of_range] escapes from the [substr] calls, although
    [find] may return [npos]. *)
Theorem createResponse_never_throws (request : string) (w : World)
        (e : Exception) :
  Z.of_nat (String.length request) < SizeT.modulus ->
  getRequestBody request <> Throw e /\ createResponse request w <> Throw e.
Proof.
  intros Hsize.
  destruct (getRequestBody_total request Hsize) as [body Hbody].
  split; [rewrite Hbody; discriminate|].
  unfold createResponse. revert e. apply bind_no_throw.
  - unfold createResponseBody. rewrite getRequestLine_value. cbn [bind].
    destruct (_ =? 0); [intros e; discriminate|].
    destruct (_ =? 0); [|intros e; discriminate].
    rewrite Hbody. cbn [bind]. apply update_no_throw.
  - intros rb _ e. discriminate.
Qed.

Lemma createResponse_never_throws_witness :
  createResponse "POST" World_init <> Throw out_of_range.
Proof.
  apply (createResponse_never_throws "POST" World_init out_of_range).
  vm_compute. reflexivity.
Defined.

Lemma update_wf body w frame w' :
  Canvas.wf (canvas w) -> update body w = Ok (frame, w') -> Canvas.wf (canvas w').
Proof.
  intros Hwf. unfold update.
  destruct (Hero.update body (hero w)) as [h| |]; cbn [bind]; try discriminate.
  destruct (clear_spec (canvas w) Hwf) as [cv1 [-> [Hwf1 _]]]. cbn [bind].
  unfold Hero.draw.
  destruct (F32.to_int _) as [x| |]; cbn [bind]; try discriminate.
  destruct (F32.to_int _) as [y| |]; cbn [bind]; try discriminate.
  destruct (F32.to_int _) as [ww| |]; cbn [bind]; try discriminate.
  destruct (drawRect_spec x y ww ww (Color.make 255 0 0) cv1 Hwf1)
    as [cv2 [-> [Hwf2 _]]]. cbn [bind].
  intros H. injection H as _ <-. exact Hwf2.
Qed.

Lemma createResponse_wf request w response w' :
  Canvas.wf (canvas w) -> createResponse request w = Ok (response, w') ->
  Canvas.wf (canvas w').
Proof.
  intros Hwf. unfold createResponse, createResponseBody.
  rewrite getRequestLine_value. cbn [bind].
  destruct (_ =? 0).
  { cbn [bind fst snd]. intros H. injection H as _ <-. exact Hwf. }
  destruct (_ =? 0).
  - destruct (getRequestBody request) as [body| |]; cbn [bind]; try discriminate.
    destruct (update body w) as [[frame w1]| |] eqn:Eu; cbn [bind fst snd];
      try discriminate.
    intros H. injection H as _ <-. exact (update_wf body w frame w1 Hwf Eu).
  - cbn [bind fst snd]. intros H. injection H as _ <-. exact Hwf.
Qed.

(** ** The loops *)

Lemma receiveSendLoop_wf fd next script p :
  Canvas.wf (canvas (Session.world p)) ->
  Canvas.wf (canvas (Session.world
                       (snd (fst (Session.receiveSendLoop fd next script p))))).
Proof.
  revert next p. induction script as [|r script IH]; intros next p Hwf;
    cbn [Session.receiveSendLoop]; [exact Hwf|].
  destruct (Session.vector_resize _); cbn [fst snd Session.world]; try exact Hwf.
  destruct (Session.readSize r =? -1); [exact Hwf|].
  destruct (Session.readSize r =? 0); [exact Hwf|].
  cbn [Session.world Session.now].
  destruct (createResponse _ _) as [[response w]| |] eqn:Ec;
    cbn [fst snd Session.world]; try exact Hwf.
  pose proof (createResponse_wf _ _ _ _ Hwf Ec) as Hwf'.
  match goal with
  | |- context [Session.receiveSendLoop fd ?n script ?q] =>
      specialize (IH n q Hwf'); destruct (Session.receiveSendLoop fd n script q)
        as [[exit p'] evs]
  end.
  exact IH.
Qed.

(** X7. The canvas is never resized: whatever the clients send and
    however the loops end, the process-wide canvas that had the
    constructor's size before [runConnectionLoop] has it after. *)
Theorem canvas_size_invariant (script : list Session.Accept) (p : Session.Proc) :
  Canvas.wf (canvas (Session.world p)) ->
  Canvas.wf (canvas (Session.world
                       (snd (fst (Session.runConnectionLoop script p))))).
Proof.
  revert p. induction script as [|a script IH]; intros p Hwf;
    cbn [Session.runConnectionLoop]; [exact Hwf|].
  destruct (Session.acceptedFd a =? -1); [exact Hwf|].
  pose proof (receiveSendLoop_wf (Session.acceptedFd a) (Session.now p)
                (Session.reads a) p Hwf) as Hs.
  unfold Session.runReceiveSendLoop.
  destruct (Session.receiveSendLoop _ _ _ p) as [[exit p'] evs].
  cbn [fst snd] in Hs.
  destruct exit; cbn [fst snd]; try exact Hs.
  specialize (IH p' Hs).
  destruct (Session.runConnectionLoop script p') as [[exit' p''] evs'].
  exact IH.
Qed.

Lemma canvas_size_invariant_witness :
  Canvas.wf
    (canvas (Session.world
       (snd (fst (Session.runConnectionLoop
                    [{| Session.acceptedFd := 4;
                        Session.reads :=
                          [{| Session.readSize := 3; Session.buffer := "GET";
                              Session.elapsed := 0; Session.overslept := 0 |}] |}]
                    {| Session.world := World_init; Session.now := 0 |}))))).
Proof. apply canvas_size_invariant. exact make_wf. Defined.

(** X8. What can end the process inside a session: when every [recv]
    result is an [ssize_t], [runReceiveSendLoop] ends in an uncaught
    exception only by the [std::length_error] of [buf.resize], and then
    some [recv] returned a negative value; the handler contributes no
    exception. *)
Theorem session_terminates_only_on_recv_error
        (fd next : Z) (script : list Session.Recv) (p : Session.Proc)
        (e : Exception) :
  Forall (fun r => -9223372036854775808 <= Session.readSize r
                   < 9223372036854775808) script ->
  fst (fst (Session.receiveSendLoop fd next script p)) = Session.Terminated e ->
  e = length_error /\ Exists (fun r => Session.readSize r < 0) script.
Proof.
  intros Hall. revert next p.
  induction Hall as [|r script Hr Hall IH]; intros next p;
    cbn [Session.receiveSendLoop]; [discriminate|].
  unfold Session.vector_resize, Session.vector_max_size, SizeT.of_signed,
    SizeT.wrap, SizeT.modulus.
  destruct (Z.ltb_spec 9223372036854775807
              (Session.readSize r mod 18446744073709551616)) as [Hbig|Hsmall].
  - cbn [fst]. intros H. injection H as <-. split; [reflexivity|].
    apply Exists_cons_hd.
    destruct (Z_lt_ge_dec (Session.readSize r) 0) as [Hneg|Hpos]; [exact Hneg|].
    rewrite Z.mod_small in Hbig by lia. lia.
  - destruct (Session.readSize r =? -1); [discriminate|].
    destruct (Session.readSize r =? 0); [discriminate|].
    cbn [Session.world Session.now].
    set (request := substring 0 (Z.to_nat (Session.readSize r)) (Session.buffer r)).
    assert (Hlen : Z.of_nat (String.length request) < SizeT.modulus).
    { assert (Hsub : forall (s : string) (m : nat),
                 (String.length (substring 0 m s) <= m)%nat).
      { clear. induction s as [|a s IHs]; intros m; destruct m; simpl; try lia.
        specialize (IHs m). lia. }
      specialize (Hsub (Session.buffer r) (Z.to_nat (Session.readSize r))).
      fold request in Hsub. unfold SizeT.modulus. lia. }
    destruct (createResponse request (Session.world p)) as [[response w]|e'|] eqn:Ec.
    + match goal with
      | |- context [Session.receiveSendLoop fd ?n script ?q] =>
          specialize (IH n q); destruct (Session.receiveSendLoop fd n script q)
            as [[exit p'] evs]
      end.
      cbn [fst] in *. intros H. destruct (IH H) as [He Hex].
      split; [exact He|]. apply Exists_cons_tl. exact Hex.
    + exfalso.
      exact (proj2 (createResponse_never_throws request (Session.world p) e' Hlen) Ec).
    + discriminate.
Qed.

Lemma session_terminates_only_on_recv_error_witness :
  length_error = length_error
  /\ Exists (fun r => Session.readSize r < 0)
       [{| Session.readSize := -1; Session.buffer := "";
           Session.elapsed := 0; Session.overslept := 0 |}].
Proof.
  apply (session_terminates_only_on_recv_error 4 0
           [{| Session.readSize := -1; Session.buffer := "";
               Session.elapsed := 0; Session.overslept := 0 |}]
           {| Session.world := World_init; Session.now := 0 |} length_error).
  - repeat constructor; simpl; lia.
  - reflexivity.
Defined.

Lemma receiveSendLoop_io fd next script p :
  let r := Session.receiveSendLoop fd next script p in
  exists n : nat,
    io (snd r)
    = concat (repeat [true; false] n)
      ++ (match fst (fst r) with Session.Starved => [] | _ => [true] end)
    /\ (n <= length script)%nat
    /\ (fst (fst r) = Session.Starved -> n = length script).
Proof.
  revert next p. induction script as [|r script IH]; intros next p;
    cbn [Session.receiveSendLoop].
  - exists 0%nat. simpl. auto.
  - destruct (Session.vector_resize _);
      try (exists 0%nat; simpl; repeat split; [lia|discriminate]).
    destruct (Session.readSize r =? -1);
      [exists 0%nat; simpl; repeat split; [lia|discriminate]|].
    destruct (Session.readSize r =? 0);
      [exists 0%nat; simpl; repeat split; [lia|discriminate]|].
    cbn [Session.world Session.now].
    destruct (createResponse _ _) as [[response w]| |];
      try (exists 0%nat; simpl; repeat split; [lia|discriminate]).
    match goal with
    | |- context [Session.receiveSendLoop fd ?n script ?q] =>
        specialize (IH n q); destruct (Session.receiveSendLoop fd n script q)
          as [[exit p'] evs]
    end.
    cbn [fst snd] in *. destruct IH as [n [Hio [Hle Hst]]].
    exists (S n). split; [|split].
    + change (io (Session.EvRecv fd (Session.readSize r)
                    :: Session.EvSleepUntil next
                    :: Session.EvSend fd response
                         (Z.max (Session.now p + Z.of_N (Session.elapsed r)) next
                          + Z.of_N (Session.overslept r)) :: evs))
        with (true :: false :: io evs).
      rewrite Hio. reflexivity.
    + simpl. lia.
    + intros H. simpl. f_equal. exact (Hst H).
Qed.

(** X9. Requests and responses alternate on a connection: the reads and
    sends of one run of [runReceiveSendLoop] are [n] pairs read-send
    followed, unless the connection goes silent, by the one read that
    ends the session; so every request but that last read is answered
    by exactly one response, sent before the next read, and nothing is
    sent after the read that ends the session. *)
Theorem session_alternates (fd : Z) (script : list Session.Recv)
        (p : Session.Proc) :
  let r := Session.runReceiveSendLoop fd script p in
  exists n : nat,
    io (snd r)
    = concat (repeat [true; false] n)
      ++ (match fst (fst r) with Session.Starved => [] | _ => [true] end)
    /\ length (Session.send_times (snd r)) = n
    /\ (n <= length script)%nat
    /\ (fst (fst r) = Session.Starved -> n = length script).
Proof.
  intros r. destruct (receiveSendLoop_io fd (Session.now p) script p)
    as [n [Hio [Hle Hst]]].
  exists n. split; [exact Hio|]. split; [|split; [exact Hle|exact Hst]].
  fold (Session.runReceiveSendLoop fd script p) in Hio. fold r in Hio.
  assert (Hcount : forall evs,
             length (Session.send_times evs)
             = length (filter negb (io evs))).
  { clear. induction evs as [|ev evs IH]; [reflexivity|].
    destruct ev; simpl; rewrite ?IH; reflexivity. }
  rewrite Hcount, Hio. rewrite filter_app.
  assert (Hrep : forall k, length (filter negb (concat (repeat [true; false] k))) = k).
  { clear. induction k; simpl; [reflexivity|]. rewrite IHk. reflexivity. }
  rewrite length_app, Hrep.
  destruct (fst (fst r)); simpl; lia.
Qed.

Lemma accepts_app l1 l2 : accepts (l1 ++ l2) = accepts l1 ++ accepts l2.
Proof. apply flat_map_app. Qed.

Lemma closes_app l1 l2 : closes (l1 ++ l2) = closes l1 ++ closes l2.
Proof. apply flat_map_app. Qed.

Lemma session_events_no_accept fd next script p :
  accepts (snd (Session.receiveSendLoop fd next script p)) = []
  /\ closes (snd (Session.receiveSendLoop fd next script p)) = [].
Proof.
  revert next p. induction script as [|r script IH]; intros next p;
    cbn [Session.receiveSendLoop]; [split; reflexivity|].
  destruct (Session.vector_resize _); try (split; reflexivity).
  destruct (Session.readSize r =? -1); [split; reflexivity|].
  destruct (Session.readSize r =? 0); [split; reflexivity|].
  cbn [Session.world Session.now].
  destruct (createResponse _ _) as [[response w]| |]; try (split; reflexivity).
  match goal with
  | |- context [Session.receiveSendLoop fd ?n script ?q] =>
      specialize (IH n q); destruct (Session.receiveSendLoop fd n script q)
        as [[exit p'] evs]
  end.
  cbn [snd] in *. exact IH.
Qed.

Lemma accepts_closes_balanced (script : list Session.Accept) (p : Session.Proc) :
  let r := Session.runConnectionLoop script p in
  exists tail : list Z,
    accepts (snd r) = closes (snd r) ++ tail
    /\ (length tail <= 1)%nat
    /\ (fst (fst r) = Session.Returned <-> tail = [-1]).
Proof.
  revert p. induction script as [|a script IH]; intros p;
    cbn [Session.runConnectionLoop].
  - exists []. simpl. repeat split; try lia; discriminate.
  - destruct (Z.eqb_spec (Session.acceptedFd a) (-1)) as [Hfd|Hfd].
    + exists [-1]. simpl. repeat split; lia.
    + destruct (session_events_no_accept (Session.acceptedFd a) (Session.now p)
                  (Session.reads a) p) as [Ha Hc].
      unfold Session.runReceiveSendLoop.
      destruct (Session.receiveSendLoop _ _ _ p) as [[exit p'] evs].
      cbn [snd] in Ha, Hc.
      assert (Hstop : exit <> Session.Returned ->
                exists tail : list Z,
                  accepts (Session.EvAccept (Session.acceptedFd a) :: evs)
                  = closes (Session.EvAccept (Session.acceptedFd a) :: evs) ++ tail
                  /\ (length tail <= 1)%nat
                  /\ (exit = Session.Returned <-> tail = [-1])).
      { intros Hne. exists [Session.acceptedFd a].
        change (accepts (Session.EvAccept (Session.acceptedFd a) :: evs))
          with (Session.acceptedFd a :: accepts evs).
        change (closes (Session.EvAccept (Session.acceptedFd a) :: evs))
          with (closes evs).
        rewrite Ha, Hc. simpl. repeat split; try lia; try contradiction.
        intros H. injection H as H. contradiction. }
      destruct exit; cbn [fst snd];
        try (apply Hstop; discriminate).
      specialize (IH p').
      destruct (Session.runConnectionLoop script p') as [[exit' p''] evs'].
      cbn [fst snd] in *. destruct IH as [tail [Hacc [Hlen Hret]]].
      exists tail.
      change (accepts (Session.EvAccept (Session.acceptedFd a)
                         :: evs ++ Session.EvClose (Session.acceptedFd a) :: evs'))
        with (Session.acceptedFd a
                :: accepts (evs ++ Session.EvClose (Session.acceptedFd a) :: evs')).
      change (closes (Session.EvAccept (Session.acceptedFd a)
                        :: evs ++ Session.EvClose (Session.acceptedFd a) :: evs'))
        with (closes (evs ++ Session.EvClose (Session.acceptedFd a) :: evs')).
      rewrite accepts_app, closes_app, Ha, Hc.
      change (accepts (Session.EvClose (Session.acceptedFd a) :: evs'))
        with (accepts evs').
      change (closes (Session.EvClose (Session.acceptedFd a) :: evs'))
        with (Session.acceptedFd a :: closes evs').
      cbn [app]. rewrite Hacc.
      split; [reflexivity|]. split; [exact Hlen|exact Hret].
Qed.

Lemma session_serial fd next script p rest :
  one_at_a_time (Some fd)
    (snd (Session.receiveSendLoop fd next script p) ++ rest)
  = one_at_a_time (Some fd) rest.
Proof.
  revert next p. induction script as [|r script IH]; intros next p;
    cbn [Session.receiveSendLoop]; [reflexivity|].
  destruct (Session.vector_resize _);
    try (cbn [snd app one_at_a_time]; rewrite Z.eqb_refl; reflexivity).
  destruct (Session.readSize r =? -1);
    [cbn [snd app one_at_a_time]; rewrite Z.eqb_refl; reflexivity|].
  destruct (Session.readSize r =? 0);
    [cbn [snd app one_at_a_time]; rewrite Z.eqb_refl; reflexivity|].
  cbn [Session.world Session.now].
  destruct (createResponse _ _) as [[response w]| |];
    try (cbn [snd app one_at_a_time]; rewrite Z.eqb_refl; reflexivity).
  match goal with
  | |- context [Session.receiveSendLoop fd ?n script ?q] =>
      specialize (IH n q); destruct (Session.receiveSendLoop fd n script q)
        as [[exit p'] evs]
  end.
  cbn [snd app one_at_a_time] in IH |- *. rewrite !Z.eqb_refl. cbn [andb].
  exact IH.
Qed.

Lemma runConnectionLoop_serial script p :
  one_at_a_time None (snd (Session.runConnectionLoop script p)) = true.
Proof.
  revert p. induction script as [|a script IH]; intros p;
    cbn [Session.runConnectionLoop]; [reflexivity|].
  destruct (Z.eqb_spec (Session.acceptedFd a) (-1)) as [Hfd|Hfd]; [reflexivity|].
  unfold Session.runReceiveSendLoop.
  pose proof (session_serial (Session.acceptedFd a) (Session.now p)
                (Session.reads a) p) as Hs.
  destruct (Session.receiveSendLoop _ _ _ p) as [[exit p'] evs].
  cbn [snd] in Hs.
  assert (Hopen : forall rest,
             one_at_a_time None (Session.EvAccept (Session.acceptedFd a) :: rest)
             = one_at_a_time (Some (Session.acceptedFd a)) rest).
  { intros rest. cbn [one_at_a_time].
    rewrite (proj2 (Z.eqb_neq _ _) Hfd). reflexivity. }
  assert (Hstop : one_at_a_time None
                    (Session.EvAccept (Session.acceptedFd a) :: evs) = true).
  { rewrite Hopen. rewrite <- (app_nil_r evs). rewrite Hs. reflexivity. }
  destruct exit; cbn [snd]; try exact Hstop.
  specialize (IH p').
  destruct (Session.runConnectionLoop script p') as [[exit' p''] evs'].
  cbn [snd] in IH |- *. rewrite Hopen, Hs. cbn [one_at_a_time].
  rewrite Z.eqb_refl. exact IH.
Qed.

(** X10. Connections are served one at a time and closed in the order
    they were accepted. In the calls of [runConnectionLoop], [accept]
    is called only while no connection is being served, every [recv],
    [send] and [close] is on the connection accepted last, and [close]
    ends its service. The descriptors handed to [close] are the
    descriptors [accept] returned, in order, up to at most one last
    [accept], whose descriptor is the only one left unclosed;
    [runConnectionLoop] returns exactly when that last [accept]
    returned -1. *)
Theorem accept_close_balance (script : list Session.Accept) (p : Session.Proc) :
  let r := Session.runConnectionLoop script p in
  one_at_a_time None (snd r) = true
  /\ exists tail : list Z,
      accepts (snd r) = closes (snd r) ++ tail
      /\ (length tail <= 1)%nat
      /\ (fst (fst r) = Session.Returned <-> tail = [-1]).
Proof.
  intros r. split.
  - apply runConnectionLoop_serial.
  - apply accepts_closes_balanced.
Qed.

(** A trace that accepts a second connection before the first is
    closed is not one at a time. *)
Lemma one_at_a_time_rejects_overlap :
  one_at_a_time None
    [Session.EvAccept 4; Session.EvAccept 5; Session.EvRecv 4 0;
     Session.EvClose 4; Session.EvRecv 5 0; Session.EvClose 5] = false.
Proof. reflexivity. Qed.

(** ** Serialisation is injective *)

Lemma uint_no_comma (d : Decimal.uint) :
  no_comma (NilEmpty.string_of_uint d) = true.
Proof. induction d; simpl; auto. Qed.

Lemma to_string_field (n : Z) : field (to_string n).
Proof.
  unfold field, to_string.
  destruct (Z.to_int n) as [d|d]; cbn [NilZero.string_of_int];
    (split; [|destruct d; discriminate]).
  - destruct d; try apply uint_no_comma. reflexivity.
  - cbn [no_comma]. destruct d; try apply uint_no_comma. reflexivity.
Qed.

Lemma to_string_inj (a b : Z) : to_string a = to_string b -> a = b.
Proof.
  intros H. pose proof (to_string_reads_back a) as Ha.
  rewrite H, to_string_reads_back in Ha. congruence.
Qed.

Lemma field_split (x y r1 r2 : string) :
  no_comma x = true -> no_comma y = true ->
  (r1 = "" \/ exists t, r1 = String "," t)%string ->
  (r2 = "" \/ exists t, r2 = String "," t)%string ->
  (x ++ r1 = y ++ r2)%string -> x = y /\ r1 = r2.
Proof.
  revert y. induction x as [|c x IH]; intros y Hx Hy H1 H2 E.
  - destruct y as [|c' y]; [auto|]. simpl in E, Hy. exfalso.
    destruct H1 as [->|[t ->]]; [discriminate|]. injection E as <- _.
    simpl in Hy. discriminate.
  - destruct y as [|c' y]; simpl in E, Hx.
    + exfalso. destruct H2 as [->|[t ->]]; [discriminate|]. injection E as -> _.
      simpl in Hx. discriminate.
    + injection E as <- E. simpl in Hy.
      apply andb_true_iff in Hx, Hy.
      destruct (IH y (proj2 Hx) (proj2 Hy) H1 H2 E) as [-> ->]. auto.
Qed.

Lemma concat_cons_tail (x : string) (l : list string) :
  String.concat "," (x :: l)
  = (x ++ match l with [] => "" | _ => String "," (String.concat "," l) end)%string.
Proof. destruct l; simpl; [rewrite append_nil_r|]; reflexivity. Qed.

Lemma join_unique (l1 l2 : list string) :
  Forall field l1 -> Forall field l2 ->
  String.concat "," l1 = String.concat "," l2 -> l1 = l2.
Proof.
  intros H1. revert l2. induction H1 as [|x l1 [Hx Hxne] H1 IH]; intros l2 H2 E.
  - destruct H2 as [|y l2 [Hy Hyne] H2]; [reflexivity|].
    rewrite concat_cons_tail in E. simpl in E.
    destruct y; [congruence|discriminate].
  - destruct H2 as [|y l2 [Hy Hyne] H2].
    + rewrite concat_cons_tail in E. simpl in E.
      destruct x; [congruence|discriminate].
    + rewrite !concat_cons_tail in E.
      apply field_split in E; auto.
      * destruct E as [-> E]. f_equal.
        destruct l1 as [|a l1], l2 as [|b l2]; try discriminate; [reflexivity|].
        injection E as E. apply IH; assumption.
      * destruct l1; [left; reflexivity|right; eauto].
      * destruct l2; [left; reflexivity|right; eauto].
Qed.

Lemma append_inj_r (a b c : string) : (a ++ c = b ++ c)%string -> a = b.
Proof.
  intros E.
  assert (Hlen : String.length a = String.length b).
  { apply (f_equal String.length) in E. rewrite !append_length in E. lia. }
  revert b E Hlen. induction a as [|x a IH]; intros [|y b] E Hlen;
    simpl in *; try discriminate; [reflexivity|].
  injection E as -> E. f_equal. apply IH; [exact E|lia].
Qed.

(** X11. The text of a frame determines the frame: two canvases with
    the same [toString] hold the same bytes. *)
Theorem toString_injective (cv1 cv2 : Canvas.t) :
  Canvas.toString cv1 = Canvas.toString cv2 -> cv1 = cv2.
Proof.
  unfold Canvas.toString. rewrite !toString_loop_join. intros E.
  injection E as E. apply append_inj_r in E.
  apply join_unique in E.
  - assert (Hd : Canvas.data cv1 = Canvas.data cv2).
    { revert E. generalize (Canvas.data cv1) (Canvas.data cv2).
      induction l as [|a l IH]; intros [|b l'] E; simpl in E;
        try discriminate; [reflexivity|].
      injection E as Ea El. f_equal; [apply to_string_inj, Ea|apply IH, El]. }
    destruct cv1, cv2. simpl in Hd. subst. reflexivity.
  - apply Forall_forall. intros s Hs. apply in_map_iff in Hs.
    destruct Hs as [n [<- _]]. apply to_string_field.
  - apply Forall_forall. intros s Hs. apply in_map_iff in Hs.
    destruct Hs as [n [<- _]]. apply to_string_field.
Qed.

Lemma toString_injective_witness :
  {| Canvas.data := [255; 0; 7] |}
  = {| Canvas.data := map (fun b => b mod 256) [511; 256; 263] |}.
Proof.
  apply (toString_injective
           {| Canvas.data := [255; 0; 7] |}
           {| Canvas.data := map (fun b => b mod 256) [511; 256; 263] |}).
  vm_compute. reflexivity.
Defined.

(** ** Key state *)

Lemma get_string_of_list (l : list ascii) (n : nat) :
  get n (string_of_list_ascii l) = nth_error l n.
Proof.
  revert n. induction l as [|a l IH]; intros [|n]; simpl; auto.
Qed.

Lemma string_of_list_length (l : list ascii) :
  String.length (string_of_list_ascii l) = length l.
Proof. induction l; simpl; auto. Qed.

Lemma keys_assign_length (i : nat) (v : bool) (keys : list (option bool)) :
  (length keys <= length (keys_assign i v keys))%nat
  /\ ((i < length keys)%nat -> length (keys_assign i v keys) = length keys).
Proof.
  unfold keys_assign. destruct (Nat.ltb_spec i (length keys)) as [Hlt|Hge].
  - rewrite length_app, length_firstn. cbn [length]. rewrite length_skipn. lia.
  - rewrite !length_app. lia.
Qed.

Lemma keys_assign_nth (i j : nat) (v : bool) (keys : list (option bool)) :
  (j < length keys)%nat ->
  nth_error (keys_assign i v keys) j
  = if (i =? j)%nat then Some (Some v) else nth_error keys j.
Proof.
  intros Hj. unfold keys_assign.
  destruct (Nat.ltb_spec i (length keys)) as [Hlt|Hge].
  - destruct (Nat.eqb_spec i j) as [->|Hne].
    + rewrite nth_error_app2 by (rewrite length_firstn; lia).
      rewrite length_firstn. replace (j - Nat.min j (length keys))%nat with 0%nat by lia.
      reflexivity.
    + rewrite <- (firstn_skipn i keys) at 3.
      destruct (Nat.lt_ge_cases j i) as [Hji|Hij].
      * rewrite !nth_error_app1 by (rewrite length_firstn; lia). reflexivity.
      * rewrite !nth_error_app2 by (rewrite length_firstn; lia).
        rewrite length_firstn. replace (Nat.min i (length keys)) with i by lia.
        destruct (j - i)%nat as [|d] eqn:Ed; [lia|].
        change (nth_error (Some v :: skipn (S i) keys) (S d))
          with (nth_error (skipn (S i) keys) d).
        rewrite !nth_error_skipn. f_equal. lia.
  - destruct (Nat.eqb_spec i j) as [->|Hne]; [lia|].
    apply nth_error_app1. exact Hj.
Qed.

(** The first 256 slots are never empty and follow the key events. *)
Lemma keys_fold (evs : list KeyEvent) (keys : list (option bool))
      (f : nat -> bool) :
  (256 <= length keys)%nat ->
  (forall j, (j < 256)%nat -> nth_error keys j = Some (Some (f j))) ->
  (256 <= length (fold_left key_event evs keys))%nat
  /\ (forall j, (j < 256)%nat ->
        nth_error (fold_left key_event evs keys) j
        = Some (Some (fold_left (key_step j) evs (f j))))
  /\ (Forall (fun e => (event_code e < 256)%nat) evs ->
      length (fold_left key_event evs keys) = length keys).
Proof.
  revert keys f. induction evs as [|e evs IH]; intros keys f Hlen Hf;
    cbn [fold_left].
  - split; [exact Hlen|]. split; [exact Hf|]. reflexivity.
  - assert (Hstep : (length keys <= length (key_event keys e))%nat
                    /\ ((event_code e < length keys)%nat ->
                        length (key_event keys e) = length keys)
                    /\ forall j, (j < 256)%nat ->
                         nth_error (key_event keys e) j
                         = Some (Some (key_step j (f j) e))).
    { destruct e as [c|c]; cbn [key_event event_code key_step];
        (split; [apply keys_assign_length|];
         split; [apply keys_assign_length|]);
        intros j Hj; rewrite keys_assign_nth by lia;
        destruct (c =? j)%nat; [reflexivity|apply Hf, Hj|reflexivity|apply Hf, Hj]. }
    destruct Hstep as [Hle [Hsame Hnth]].
    destruct (IH (key_event keys e) (fun j => key_step j (f j) e)
                 ltac:(lia) Hnth) as [H1 [H2 H3]].
    split; [exact H1|]. split; [exact H2|].
    intros Hall. inversion Hall as [|? ? He Hevs]; subst.
    rewrite (H3 Hevs). apply Hsame. lia.
Qed.

Lemma keys_init_nth (j : nat) :
  (j < 256)%nat -> nth_error keys_init j = Some (Some false).
Proof.
  intros Hj. unfold keys_init.
  rewrite (nth_error_nth' _ (Some false)) by (rewrite repeat_length; exact Hj).
  rewrite nth_repeat. reflexivity.
Qed.

(** The text of the first [n] slots, when none of them is empty. *)
Lemma join_prefix (n : nat) (keys : list (option bool)) (f : nat -> bool) :
  (forall j, (j < n)%nat -> nth_error keys j = Some (Some (f j))) ->
  flat_map (fun slot => match slot with
                        | Some true => ["1"%char]
                        | Some false => ["0"%char]
                        | None => []
                        end) keys
  = map (fun j => if f j then "1"%char else "0"%char) (seq 0 n)
    ++ flat_map (fun slot => match slot with
                             | Some true => ["1"%char]
                             | Some false => ["0"%char]
                             | None => []
                             end) (skipn n keys).
Proof.
  revert keys f. induction n as [|n IH]; intros keys f Hf; [reflexivity|].
  destruct keys as [|slot keys].
  { specialize (Hf 0%nat ltac:(lia)). discriminate Hf. }
  pose proof (Hf 0%nat ltac:(lia)) as H0. cbn [nth_error] in H0.
  injection H0 as ->.
  cbn [flat_map skipn seq map]. rewrite <- seq_shift, map_map.
  rewrite (IH keys (fun j => f (S j))).
  - destruct (f 0%nat); reflexivity.
  - intros j Hj. exact (Hf (S j) ltac:(lia)).
Qed.

Lemma keysBody_get (evs : list KeyEvent) (j : nat) :
  (j < 256)%nat ->
  get j (keysBody evs)
  = Some (if down_after evs j then "1"%char else "0"%char).
Proof.
  intros Hj. unfold keysBody, keys_join, down_after.
  destruct (keys_fold evs keys_init (fun _ => false)
              ltac:(unfold keys_init; rewrite repeat_length; lia)
              (fun j Hj => keys_init_nth j Hj)) as [_ [Hnth _]].
  rewrite get_string_of_list, (join_prefix 256 _ _ Hnth).
  rewrite nth_error_app1 by (rewrite length_map, length_seq; exact Hj).
  rewrite nth_error_map.
  rewrite (nth_error_nth' (seq 0 256) 0%nat) by (rewrite length_seq; exact Hj).
  rewrite seq_nth by exact Hj. reflexivity.
Qed.

Lemma keysBody_length (evs : list KeyEvent) :
  (256 <= String.length (keysBody evs))%nat
  /\ (Forall (fun e => (event_code e < 256)%nat) evs ->
      String.length (keysBody evs) = 256%nat).
Proof.
  unfold keysBody, keys_join.
  destruct (keys_fold evs keys_init (fun _ => false)
              ltac:(unfold keys_init; rewrite repeat_length; lia)
              (fun j Hj => keys_init_nth j Hj)) as [_ [Hnth Hlen]].
  rewrite string_of_list_length, (join_prefix 256 _ _ Hnth).
  rewrite length_app, length_map, length_seq. split; [lia|].
  intros Hall. rewrite skipn_all2; [reflexivity|].
  rewrite (Hlen Hall). unfold keys_init. rewrite repeat_length. lia.
Qed.

Lemma keysBody_isKeyDown (evs : list KeyEvent) (k : KeyCode) :
  isKeyDown (keysBody evs) k
  = Ok (down_after evs (Z.to_nat (KeyCode_int k))).
Proof.
  unfold isKeyDown. rewrite keysBody_get by (destruct k; simpl; lia).
  destruct (down_after evs _); reflexivity.
Qed.

Lemma keysBody_pressed (evs : list KeyEvent) (k : KeyCode) :
  pressed (keysBody evs) k = down_after evs (Z.to_nat (KeyCode_int k)).
Proof.
  unfold pressed. rewrite keysBody_get by (destruct k; simpl; lia).
  destruct (down_after evs _); reflexivity.
Qed.

Lemma down_after_held (down : list nat) (k : KeyCode) :
  down_after (map KeyDown down) (Z.to_nat (KeyCode_int k)) = held down k.
Proof.
  unfold down_after, held. generalize (Z.to_nat (KeyCode_int k)) as c. intros c.
  assert (H : forall b, fold_left (key_step c) (map KeyDown down) b
                        = b || existsb (Nat.eqb c) down).
  { induction down as [|d down IH]; intros b; cbn [map fold_left existsb key_step].
    - rewrite orb_false_r. reflexivity.
    - rewrite IH, (Nat.eqb_sym d c). destruct (c =? d)%nat, b; reflexivity. }
  apply H.
Qed.

Lemma keyStateBody_long (down : list nat) :
  41 <= Z.of_nat (String.length (keyStateBody down)).
Proof.
  unfold keyStateBody.
  destruct (keysBody_length (map KeyDown down)) as [H _]. lia.
Qed.

Lemma keyStateBody_pressed (down : list nat) (k : KeyCode) :
  pressed (keyStateBody down) k = held down k.
Proof.
  unfold keyStateBody. rewrite keysBody_pressed. apply down_after_held.
Qed.

(** X12. What the page encodes, the server decodes. After every
    sequence of key events, the body the script of [baseHTML] sends has
    at least 256 characters, and exactly 256 when every key code is
    below 256 (a larger code grows the array); [isKeyDown] on it
    answers for each arrow key whether the last event of that key was a
    key down, and [Hero::update] returns the hero displaced by exactly
    those keys. *)
Theorem keyStateBody_round_trip (evs : list KeyEvent) (k : KeyCode)
        (h : Hero.t) :
  (256 <= String.length (keysBody evs))%nat
  /\ (Forall (fun e => (event_code e < 256)%nat) evs ->
      String.length (keysBody evs) = 256%nat)
  /\ isKeyDown (keysBody evs) k = Ok (down_after evs (Z.to_nat (KeyCode_int k)))
  /\ Hero.update (keysBody evs) h
     = Ok (displace (down_after evs 37) (down_after evs 38)
                    (down_after evs 39) (down_after evs 40) h).
Proof.
  destruct (keysBody_length evs) as [Hge Heq].
  split; [exact Hge|]. split; [exact Heq|].
  split; [apply keysBody_isKeyDown|].
  rewrite Hero_update_covered by lia.
  rewrite !keysBody_pressed. reflexivity.
Qed.

(** A key code beyond 255 makes the body longer: the page then sends
    257 characters. *)
Lemma keysBody_grows :
  String.length (keysBody [KeyDown 300]) = 257%nat
  /\ String.length (keysBody [KeyDown 300; KeyUp 300]) = 257%nat
  /\ keyStateBody [300%nat] = (keyStateBody [] ++ "1")%string.
Proof. vm_compute. repeat split. Qed.

Lemma Hero_update_short (body : string) (h : Hero.t) :
  Z.of_nat (String.length body) < 41 -> Hero.update body h = Undefined.
Proof.
  intros Hshort. unfold Hero.update.
  rewrite (isKeyDown_beyond body ArrowDown) by (simpl; lia).
  unfold isKeyDown.
  destruct (get _ body); cbn [bind]; [|reflexivity].
  destruct (get _ body); cbn [bind]; [|reflexivity].
  destruct (get _ body); cbn [bind]; reflexivity.
Qed.

(** X13. [Hero::update] reads the four indices 37 to 40 whatever the
    keys are: it has a defined result exactly when the body has at
    least 41 characters. *)
Theorem Hero_update_defined_iff (body : string) (h : Hero.t) :
  Hero.update body h = Undefined <-> Z.of_nat (String.length body) < 41.
Proof.
  split.
  - intros H. destruct (Z_lt_ge_dec (Z.of_nat (String.length body)) 41) as [|Hge];
      [assumption|].
    rewrite Hero_update_covered in H by lia. discriminate.
  - apply Hero_update_short.
Qed.

(** ** Request line and request body *)

Lemma substring_of_prefix (s : string) (j k m : nat) :
  (j + k <= m)%nat -> substring j k (substring 0 m s) = substring j k s.
Proof.
  revert j k m. induction s as [|c s IH]; intros j k m H.
  - destruct m; reflexivity.
  - destruct m as [|m].
    + assert (j = 0%nat) by lia. assert (k = 0%nat) by lia. subst. reflexivity.
    + cbn [substring]. destruct j as [|j].
      * destruct k as [|k]; [reflexivity|]. cbn [substring].
        rewrite (IH 0%nat k m) by lia. reflexivity.
      * cbn [substring]. apply IH. lia.
Qed.

Lemma substring_fits (s : string) (j k : nat) :
  (0 < k)%nat -> String.length (substring j k s) = k ->
  (j + k <= String.length s)%nat.
Proof.
  revert j k. induction s as [|c s IH]; intros j k Hk Hl.
  - destruct j, k; simpl in *; lia.
  - destruct j as [|j].
    + destruct k as [|k]; [lia|]. simpl in *.
      destruct k as [|k]; [lia|]. specialize (IH 0%nat (S k) ltac:(lia)). lia.
    + simpl in *. specialize (IH j k Hk Hl). lia.
Qed.

Lemma split_at_occurrence (pat s : string) (m : nat) :
  pat <> ""%string ->
  substring m (String.length pat) s = pat ->
  exists rest, s = (substring 0 m s ++ pat ++ rest)%string.
Proof.
  intros Hne. revert m. induction s as [|c s IH]; intros m H.
  - destruct m, pat; simpl in H; congruence.
  - destruct m as [|m].
    + apply prefix_correct, prefix_starts_with in H. destruct H as [rest H].
      exists rest. rewrite H at 1. destruct pat; reflexivity.
    + cbn [substring] in H. destruct (IH m H) as [rest Hs].
      exists rest. cbn [substring append]. rewrite <- Hs. reflexivity.
Qed.

Lemma getRequestLine_split (request : string) :
  Z.of_nat (String.length request) < SizeT.modulus ->
  exists line,
    getRequestLine request = Ok line
    /\ (forall j, substring j 2 line <> CRLF)
    /\ ((exists rest, request = (line ++ CRLF ++ rest)%string)
        \/ (line = request /\ forall j, substring j 2 request <> CRLF)).
Proof.
  intros Hsize.
  rewrite getRequestLine_value. eexists. split; [reflexivity|].
  unfold find. destruct (index 0 CRLF request) as [m|] eqn:E.
  - pose proof (index_bound CRLF request 0 m ltac:(discriminate) E) as Hb.
    change (String.length CRLF) with 2%nat in Hb.
    replace (Z.to_nat (Z.min (Z.of_nat m) (Z.of_nat (String.length request))))
      with m by lia.
    split.
    + intros j Hj.
      assert (Hfit : (j + 2 <= String.length (substring 0 m request))%nat).
      { apply substring_fits; [lia|]. rewrite Hj. reflexivity. }
      assert (Hm : (String.length (substring 0 m request) <= m)%nat).
      { clear. revert m. induction request as [|c s IH]; intros [|m]; simpl; try lia.
        specialize (IH m). lia. }
      rewrite substring_of_prefix in Hj by lia.
      apply (index_correct2 _ _ _ _ E j); [lia|lia|exact Hj].
    + left. apply (split_at_occurrence CRLF request m); [discriminate|].
      exact (index_correct1 _ _ _ _ E).
  - assert (Hnone : forall j, substring j 2 request <> CRLF).
    { intros j. apply (index_correct3 0 j CRLF request E); [discriminate|lia]. }
    assert (Hall : substring 0 (Z.to_nat (Z.min SizeT.npos
                                   (Z.of_nat (String.length request)))) request
                   = request).
    { apply substring_all. unfold SizeT.npos, SizeT.modulus in *. lia. }
    rewrite Hall. split; [exact Hnone|]. right. split; [reflexivity|exact Hnone].
Qed.

(** X14. For a request whose length fits [size_t], [getRequestLine]
    never fails and cuts the request at its first CRLF: the line holds
    no CRLF, and either the request is the line followed by CRLF and the
    rest, or the request holds no CRLF at all and the line is the whole
    request. *)
Theorem getRequestLine_cuts_at_first_CRLF (request : string) :
  Z.of_nat (String.length request) < SizeT.modulus ->
  exists line,
    getRequestLine request = Ok line
    /\ (forall j, substring j 2 line <> CRLF)
    /\ ((exists rest, request = (line ++ CRLF ++ rest)%string)
        \/ (line = request /\ forall j, substring j 2 request <> CRLF)).
Proof. exact (getRequestLine_split request). Qed.

Lemma getRequestLine_cuts_at_first_CRLF_witness :
  exists line,
    getRequestLine ("GET / HTTP/1.1" ++ CRLF ++ "Host: x" ++ CRLF ++ CRLF)
    = Ok line
    /\ (forall j, substring j 2 line <> CRLF)
    /\ ((exists rest,
            ("GET / HTTP/1.1" ++ CRLF ++ "Host: x" ++ CRLF ++ CRLF)%string
            = (line ++ CRLF ++ rest)%string)
        \/ (line = ("GET / HTTP/1.1" ++ CRLF ++ "Host: x" ++ CRLF ++ CRLF)%string
            /\ forall j,
                substring j 2
                  ("GET / HTTP/1.1" ++ CRLF ++ "Host: x" ++ CRLF ++ CRLF)
                <> CRLF)).
Proof.
  apply (getRequestLine_cuts_at_first_CRLF
           ("GET / HTTP/1.1" ++ CRLF ++ "Host: x" ++ CRLF ++ CRLF)).
  vm_compute. reflexivity.
Defined.

Lemma line_starts_with_POST (request line : string) :
  Z.of_nat (String.length request) < SizeT.modulus ->
  getRequestLine request = Ok line ->
  starts_with "POST" line <-> starts_with "POST" request.
Proof.
  intros Hsize Hl.
  destruct (getRequestLine_split request Hsize) as [line' [Hl' [_ Hcut]]].
  rewrite Hl in Hl'. injection Hl' as <-.
  destruct Hcut as [[rest Hr]|[-> _]]; [|reflexivity].
  unfold starts_with. split.
  - intros [r ->]. exists (r ++ CRLF ++ rest)%string. rewrite Hr.
    reflexivity.
  - intros [r Hp]. rewrite Hp in Hr.
    destruct line as [|a [|b [|c [|d l]]]]; try discriminate Hr.
    exists l. cbn [append] in Hr. injection Hr as <- <- <- <- _. reflexivity.
Qed.

(** X15. [getRequestBody] on a request whose length fits [size_t]: a
    request that does not start with POST has the empty body, and a
    request that starts with POST and whose first CRLF CRLF comes right
    after [head] has as body everything behind that separator. *)
Theorem getRequestBody_after_first_separator (head body : string) :
  let request := (head ++ (CRLF ++ CRLF) ++ body)%string in
  Z.of_nat (String.length request) < SizeT.modulus ->
  (forall j, (j < String.length head)%nat ->
             substring j 4 request <> (CRLF ++ CRLF)%string) ->
  getRequestBody request
  = Ok (if prefix "POST" head then body else ""%string).
Proof.
  intros request Hsize Hfirst.
  destruct (getRequestLine_total request) as [line Hl].
  pose proof (line_starts_with_POST request line Hsize Hl) as Hiff.
  destruct (prefix "POST" head) eqn:Ep.
  - apply prefix_starts_with in Ep.
    apply (getRequestBody_after_separator head body line Hsize Hfirst Hl).
    apply Hiff. destruct Ep as [r ->]. exists (r ++ (CRLF ++ CRLF) ++ body)%string.
    unfold request. reflexivity.
  - apply (getRequestBody_not_post request line Hl).
    intros Hs. apply Hiff in Hs. destruct Hs as [r Hr].
    assert (Hp : prefix "POST" head = true); [|congruence].
    unfold request in Hr.
    destruct head as [|a [|b [|c [|d l]]]]; cbn [append] in Hr;
      try discriminate Hr.
    injection Hr as -> -> -> -> _. cbn. destruct l; reflexivity.
Qed.

Lemma getRequestBody_after_first_separator_witness :
  getRequestBody
    (("POST / HTTP/1.1" ++ CRLF ++ "Host: x") ++ (CRLF ++ CRLF) ++ "0101")
  = Ok "0101"%string.
Proof.
  apply (getRequestBody_after_first_separator
           ("POST / HTTP/1.1" ++ CRLF ++ "Host: x") "0101").
  - vm_compute. reflexivity.
  - intros j Hj H.
    do 24 (destruct j as [|j]; [vm_compute in H; discriminate H|]).
    vm_compute in Hj. lia.
Defined.

(** ** The hero on the grid of multiples of 8 *)

Lemma grid_shift (l r : bool) (i : Z) :
  -16777216 < i < 16777216 ->
  (if r
   then F32.add (if l then F32.sub (F32.of_int (8 * i)) F32.lit_8_0
                 else F32.of_int (8 * i)) F32.lit_8_0
   else if l then F32.sub (F32.of_int (8 * i)) F32.lit_8_0
        else F32.of_int (8 * i))
  = F32.of_int (8 * (i - Z.b2z l + Z.b2z r)).
Proof.
  intros Hi. destruct l, r; cbn [Z.b2z].
  - rewrite F32_sub_8 by lia. replace (8 * i - 8) with (8 * (i - 1)) by lia.
    rewrite F32_add_8 by lia. f_equal. lia.
  - rewrite F32_sub_8 by lia. f_equal. lia.
  - rewrite F32_add_8 by lia. f_equal. lia.
  - f_equal. lia.
Qed.

Lemma displace_grid (l u r d : bool) (i j : Z) :
  -16777216 < i < 16777216 -> -16777216 < j < 16777216 ->
  displace l u r d (at_cell i j)
  = at_cell (i - Z.b2z l + Z.b2z r) (j - Z.b2z u + Z.b2z d).
Proof.
  intros Hi Hj. unfold displace, at_cell. cbn [Hero.x_ Hero.y_].
  rewrite <- (grid_shift l r i Hi), <- (grid_shift u d j Hj).
  destruct l, u, r, d; reflexivity.
Qed.

(** X16. One tick on the grid, for every combination of keys: with a
    body that covers the four key positions, the hero at cell [(i, j)]
    moves to the cell one to the left for Left, one to the right for
    Right, one up for Up and one down for Down, exactly; opposite keys
    cancel. *)
Theorem Hero_update_grid_step (body : string) (i j : Z) :
  41 <= Z.of_nat (String.length body) ->
  -16777216 < i < 16777216 -> -16777216 < j < 16777216 ->
  Hero.update body (at_cell i j)
  = Ok (at_cell
          (i - Z.b2z (pressed body ArrowLeft) + Z.b2z (pressed body ArrowRight))
          (j - Z.b2z (pressed body ArrowUp) + Z.b2z (pressed body ArrowDown))).
Proof.
  intros Hlen Hi Hj. rewrite Hero_update_covered by exact Hlen.
  rewrite displace_grid by assumption. reflexivity.
Qed.

Lemma Hero_update_grid_step_witness :
  Hero.update (keyStateBody [37%nat; 39%nat; 40%nat]) (at_cell 16 16)
  = Ok (at_cell
          (16 - Z.b2z (pressed (keyStateBody [37%nat; 39%nat; 40%nat]) ArrowLeft)
           + Z.b2z (pressed (keyStateBody [37%nat; 39%nat; 40%nat]) ArrowRight))
          (16 - Z.b2z (pressed (keyStateBody [37%nat; 39%nat; 40%nat]) ArrowUp)
           + Z.b2z (pressed (keyStateBody [37%nat; 39%nat; 40%nat]) ArrowDown))).
Proof.
  apply (Hero_update_grid_step (keyStateBody [37%nat; 39%nat; 40%nat]) 16 16).
  - vm_compute. discriminate.
  - lia.
  - lia.
Defined.

(** ** The square drawn for a hero on the grid *)

Lemma exact_align_4 (n : Z) (s : bool) (m : positive) (t : Z) :
  8 <= Z.abs n -> F32.representable n ->
  F32.exact n = S754_finite s m t ->
  Z.min t (-21) = -21 /\
  cond_Zopp s (Z.pos (fst (shl_align m t (-21)))) = n * 2 ^ 21.
Proof.
  intros Hn Hrep Hex.
  destruct (exact_finite n ltac:(lia) Hrep) as [m0 [t0 [Hex0 [Ht0 Hm0]]]].
  rewrite Hex0 in Hex. injection Hex as <- <- <-.
  assert (Hl : 3 <= Z.log2 (Z.abs n)).
  { change 3 with (Z.log2 8). apply Z.log2_le_mono. lia. }
  assert (Ht : -20 <= t0) by lia.
  split; [lia|].
  assert (Hshift : Z.pos m0 * 2 ^ (t0 + 21) = Z.abs n * 2 ^ 21).
  { apply (Z.mul_reg_r _ _ (2 ^ 128)); [apply Z.pow_nonzero; lia|].
    rewrite <- !Z.mul_assoc, <- !Z.pow_add_r by lia.
    replace (t0 + 21 + 128) with (t0 + 149) by lia. exact Hm0. }
  assert (Hal : Z.pos (fst (shl_align m0 t0 (-21))) = Z.abs n * 2 ^ 21).
  { unfold shl_align. destruct (-21 - t0) as [|d|d] eqn:Ed; cbn [fst]; try lia.
    rewrite Zpos_iter_xO. replace (Z.pos d) with (t0 + 21) by lia.
    exact Hshift. }
  rewrite Hal. destruct (Z.ltb_spec n 0); unfold cond_Zopp; lia.
Qed.

Lemma representable_8_minus_4 (k : Z) :
  -8388608 < k <= 8388608 -> F32.representable (8 * k - 4).
Proof.
  intros Hk. unfold F32.representable.
  set (a := Z.abs (8 * k - 4)).
  assert (Ha : 4 <= a < 67108864) by (unfold a; lia).
  assert (Hl : 2 <= Z.log2 a <= 25).
  { split.
    - change 2 with (Z.log2 4). apply Z.log2_le_mono. lia.
    - assert (Z.log2 a < 26); [|lia]. apply Z.log2_lt_pow2; lia. }
  split; [lia|].
  destruct (Z.le_gt_cases (Z.log2 a + 1 - 24) 0) as [Hle|Hgt]; [left; exact Hle|].
  right.
  assert (Hcases : Z.log2 a = 24 \/ Z.log2 a = 25) by lia.
  destruct Hcases as [E|E]; rewrite E.
  - exists (Z.abs (4 * k - 2)). change (2 ^ (24 + 1 - 24)) with 2. unfold a. lia.
  - exists (Z.abs (2 * k - 1)). change (2 ^ (25 + 1 - 24)) with 4. unfold a. lia.
Qed.

Lemma sub4 (k : Z) :
  -8388608 < k <= 8388608 ->
  SFsub 24 128 (F32.exact (8 * k)) (S754_finite false 8388608 (-21))
  = F32.exact (8 * k - 4).
Proof.
  intros Hk. destruct (Z.eq_dec k 0) as [->|Hk0]; [reflexivity|].
  destruct (exact_finite (8 * k) ltac:(lia) (representable_8 k ltac:(lia)))
    as [m [t [Hex _]]].
  destruct (exact_align_4 (8 * k) _ m t ltac:(lia) (representable_8 k ltac:(lia)) Hex)
    as [Hmin Hal].
  rewrite Hex. cbn [SFsub]. rewrite Hmin, Hal.
  change (cond_Zopp false (Z.pos (fst (shl_align 8388608 (-21) (-21)))))
    with (4 * 2 ^ 21).
  replace (8 * k * 2 ^ 21 - 4 * 2 ^ 21) with ((8 * k - 4) * 2 ^ (- (-21))) by
    (change (- (-21)) with 21; lia).
  apply normalize_exact; [lia|apply representable_8_minus_4; exact Hk].
Qed.

(** Truncation gives back a representable integer in the [int] range. *)
Lemma to_int_exact (n : Z) :
  F32.representable n -> Int.in_range n -> F32.to_int (F32.exact n) = Ok n.
Proof.
  intros Hrep Hr. destruct (Z.eq_dec n 0) as [->|Hn]; [reflexivity|].
  destruct (exact_finite n Hn Hrep) as [m [t [-> [Ht Hm]]]].
  assert (Ht23 : -23 <= t) by (pose proof (Z.log2_nonneg (Z.abs n)); lia).
  assert (Hmag : Z.shiftl (Z.pos m) t = Z.abs n).
  { destruct (Z.le_gt_cases 0 t) as [Hpos|Hneg].
    - rewrite Z.shiftl_mul_pow2 by lia.
      apply (Z.mul_reg_r _ _ (2 ^ 149)); [apply Z.pow_nonzero; lia|].
      rewrite <- Z.mul_assoc, <- Z.pow_add_r by lia. exact Hm.
    - rewrite Z.shiftl_div_pow2 by lia.
      assert (Hm2 : Z.pos m = Z.abs n * 2 ^ (- t)).
      { apply (Z.mul_reg_r _ _ (2 ^ (t + 149))); [apply Z.pow_nonzero; lia|].
        rewrite <- Z.mul_assoc, <- Z.pow_add_r by lia.
        replace (- t + (t + 149)) with 149 by lia. exact Hm. }
      rewrite Hm2. apply Z.div_mul. apply Z.pow_nonzero; lia. }
  cbn [F32.to_int]. rewrite Hmag. unfold Int.in_range in Hr.
  destruct (Z.ltb_spec n 0).
  - replace (- Z.abs n) with n by lia.
    destruct (Z.leb_spec Int.min_int n); [|lia].
    destruct (Z.leb_spec n Int.max_int); [reflexivity|lia].
  - replace (Z.abs n) with n by lia.
    destruct (Z.leb_spec Int.min_int n); [|lia].
    destruct (Z.leb_spec n Int.max_int); [reflexivity|lia].
Qed.

Lemma draw_coordinate (k : Z) :
  -8388608 < k <= 8388608 ->
  F32.to_int (F32.sub (F32.of_int (8 * k)) F32.lit_4_0) = Ok (8 * k - 4).
Proof.
  intros Hk. rewrite F32_of_int_8 by lia.
  unfold F32.sub, F32.lit_4_0, F32.prec, F32.emax. rewrite sub4 by exact Hk.
  apply to_int_exact; [apply representable_8_minus_4; exact Hk|].
  unfold Int.in_range, Int.min_int, Int.max_int. lia.
Qed.

Lemma update_on_grid (body : string) (w : World) (i j : Z) :
  Canvas.wf (canvas w) ->
  41 <= Z.of_nat (String.length body) ->
  hero w = at_cell i j ->
  -8388607 < i < 8388608 -> -8388607 < j < 8388608 ->
  let i' := i - Z.b2z (pressed body ArrowLeft) + Z.b2z (pressed body ArrowRight) in
  let j' := j - Z.b2z (pressed body ArrowUp) + Z.b2z (pressed body ArrowDown) in
  exists cv,
    update body w = Ok (Canvas.toString cv, {| canvas := cv; hero := at_cell i' j' |})
    /\ Canvas.wf cv
    /\ forall p, Canvas.inside p ->
         pixel cv p =
         if (8 * i' - 4 <=? fst p) && (fst p <? 8 * i' + 4)
            && (8 * j' - 4 <=? snd p) && (snd p <? 8 * j' + 4)
         then [255; 0; 0; 255] else [0; 0; 0; 255].
Proof.
  intros Hwf Hlen Hh Hi Hj i' j'.
  assert (Hi' : -8388608 < i' <= 8388608).
  { unfold i'. destruct (pressed body ArrowLeft), (pressed body ArrowRight);
      cbn [Z.b2z]; lia. }
  assert (Hj' : -8388608 < j' <= 8388608).
  { unfold j'. destruct (pressed body ArrowUp), (pressed body ArrowDown);
      cbn [Z.b2z]; lia. }
  assert (Hd : displace (pressed body ArrowLeft) (pressed body ArrowUp)
                 (pressed body ArrowRight) (pressed body ArrowDown) (hero w)
               = at_cell i' j').
  { rewrite Hh. apply displace_grid; lia. }
  destruct (update_frame body w (8 * i' - 4) (8 * j' - 4) Hwf Hlen)
    as [cv [Hu [Hwf' Hpix]]].
  - rewrite Hd. apply draw_coordinate. exact Hi'.
  - rewrite Hd. apply draw_coordinate. exact Hj'.
  - exists cv. rewrite Hd in Hu. split; [exact Hu|]. split; [exact Hwf'|].
    intros p Hp. rewrite (Hpix p Hp).
    rewrite drawn_rectangle;
      [|unfold Int.in_range, Int.min_int, Int.max_int; lia
       |unfold Int.in_range, Int.min_int, Int.max_int; lia|exact Hp].
    replace (8 * i' - 4 + 8) with (8 * i' + 4) by lia.
    replace (8 * j' - 4 + 8) with (8 * j' + 4) by lia. reflexivity.
Qed.

(** X17. The frame of one request on the grid. With the hero at cell
    [(i, j)] and a body that covers the four key positions, [update]
    moves the hero to the cell [(i', j')] the keys select and returns
    the text of a canvas that is black except for the part inside the
    raster of the red 8 x 8 square whose corner is [(8 i' - 4, 8 j' - 4)];
    a hero outside the raster gives an all-black frame, not a failure. *)
Theorem update_grid_frame (body : string) (w : World) (i j : Z) :
  Canvas.wf (canvas w) ->
  41 <= Z.of_nat (String.length body) ->
  hero w = at_cell i j ->
  -8388607 < i < 8388608 -> -8388607 < j < 8388608 ->
  let i' := i - Z.b2z (pressed body ArrowLeft) + Z.b2z (pressed body ArrowRight) in
  let j' := j - Z.b2z (pressed body ArrowUp) + Z.b2z (pressed body ArrowDown) in
  exists cv,
    update body w = Ok (Canvas.toString cv, {| canvas := cv; hero := at_cell i' j' |})
    /\ Canvas.wf cv
    /\ forall p, Canvas.inside p ->
         pixel cv p =
         if (8 * i' - 4 <=? fst p) && (fst p <? 8 * i' + 4)
            && (8 * j' - 4 <=? snd p) && (snd p <? 8 * j' + 4)
         then [255; 0; 0; 255] else [0; 0; 0; 255].
Proof. exact (update_on_grid body w i j). Qed.

Lemma update_grid_frame_witness :
  exists cv,
    update (keyStateBody [37%nat])
      {| canvas := Canvas.make; hero := at_cell 0 40 |}
    = Ok (Canvas.toString cv,
          {| canvas := cv;
             hero := at_cell
               (0 - Z.b2z (pressed (keyStateBody [37%nat]) ArrowLeft)
                + Z.b2z (pressed (keyStateBody [37%nat]) ArrowRight))
               (40 - Z.b2z (pressed (keyStateBody [37%nat]) ArrowUp)
                + Z.b2z (pressed (keyStateBody [37%nat]) ArrowDown)) |})
    /\ Canvas.wf cv
    /\ forall p, Canvas.inside p ->
         pixel cv p =
         if (8 * (0 - Z.b2z (pressed (keyStateBody [37%nat]) ArrowLeft)
                  + Z.b2z (pressed (keyStateBody [37%nat]) ArrowRight)) - 4 <=? fst p)
            && (fst p <? 8 * (0 - Z.b2z (pressed (keyStateBody [37%nat]) ArrowLeft)
                              + Z.b2z (pressed (keyStateBody [37%nat]) ArrowRight)) + 4)
            && (8 * (40 - Z.b2z (pressed (keyStateBody [37%nat]) ArrowUp)
                     + Z.b2z (pressed (keyStateBody [37%nat]) ArrowDown)) - 4 <=? snd p)
            && (snd p <? 8 * (40 - Z.b2z (pressed (keyStateBody [37%nat]) ArrowUp)
                              + Z.b2z (pressed (keyStateBody [37%nat]) ArrowDown)) + 4)
         then [255; 0; 0; 255] else [0; 0; 0; 255].
Proof.
  apply (update_grid_frame (keyStateBody [37%nat])
           {| canvas := Canvas.make; hero := at_cell 0 40 |} 0 40).
  - exact make_wf.
  - vm_compute. discriminate.
  - reflexivity.
  - lia.
  - lia.
Defined.

(** ** The hero over a whole run *)

Lemma near_mono (n n' : Z) (h : Hero.t) : n <= n' -> near n h -> near n' h.
Proof. intros Hle [i [j [Hh [Hi Hj]]]]. exists i, j. repeat split; try assumption; lia. Qed.

Lemma update_near body w frame w' n :
  0 <= n < 16777000 -> near n (hero w) ->
  update body w = Ok (frame, w') -> near (n + 1) (hero w').
Proof.
  intros Hn [i [j [Hh [Hi Hj]]]]. unfold update.
  destruct (Z_lt_ge_dec (Z.of_nat (String.length body)) 41) as [Hshort|Hlen].
  { rewrite Hero_update_short by exact Hshort. discriminate. }
  rewrite Hero_update_covered by lia. rewrite Hh, displace_grid by lia.
  cbn [bind].
  destruct (Canvas.clear _) as [cv1| |]; cbn [bind]; try discriminate.
  destruct (Hero.draw _ cv1) as [cv2| |]; cbn [bind]; try discriminate.
  intros H. injection H as _ <-. cbn [hero].
  eexists _, _. split; [reflexivity|].
  destruct (pressed body ArrowLeft), (pressed body ArrowUp),
    (pressed body ArrowRight), (pressed body ArrowDown); cbn [Z.b2z]; lia.
Qed.

Lemma createResponse_near request w response w' n :
  0 <= n < 16777000 -> near n (hero w) ->
  createResponse request w = Ok (response, w') -> near (n + 1) (hero w').
Proof.
  intros Hn Hnear. unfold createResponse, createResponseBody.
  rewrite getRequestLine_value. cbn [bind].
  destruct (_ =? 0).
  { cbn [bind fst snd]. intros H. injection H as _ <-.
    apply (near_mono n); [lia|exact Hnear]. }
  destruct (_ =? 0).
  - destruct (getRequestBody request) as [body| |]; cbn [bind]; try discriminate.
    destruct (update body w) as [[frame w1]| |] eqn:Eu; cbn [bind fst snd];
      try discriminate.
    intros H. injection H as _ <-. exact (update_near body w frame w1 n Hn Hnear Eu).
  - cbn [bind fst snd]. intros H. injection H as _ <-.
    apply (near_mono n); [lia|exact Hnear].
Qed.

Lemma receiveSendLoop_near fd next script p n :
  0 <= n -> n + Z.of_nat (length script) < 16777000 ->
  near n (hero (Session.world p)) ->
  near (n + Z.of_nat (length script))
       (hero (Session.world
                (snd (fst (Session.receiveSendLoop fd next script p))))).
Proof.
  revert next p n. induction script as [|r script IH]; intros next p n Hn Hb Hnear;
    cbn [Session.receiveSendLoop].
  { cbn [fst snd length]. apply (near_mono n); [lia|exact Hnear]. }
  cbn [length] in Hb |- *.
  assert (Hkeep : near (n + Z.of_nat (S (length script))) (hero (Session.world p)))
    by (apply (near_mono n); [lia|exact Hnear]).
  destruct (Session.vector_resize _); cbn [fst snd Session.world]; try exact Hkeep.
  destruct (Session.readSize r =? -1); [exact Hkeep|].
  destruct (Session.readSize r =? 0); [exact Hkeep|].
  cbn [Session.world Session.now].
  destruct (createResponse _ _) as [[response w]| |] eqn:Ec;
    cbn [fst snd Session.world]; try exact Hkeep.
  pose proof (createResponse_near _ _ _ _ n ltac:(lia) Hnear Ec) as Hnear'.
  match goal with
  | |- context [Session.receiveSendLoop fd ?m script ?q] =>
      specialize (IH m q (n + 1) ltac:(lia) ltac:(lia) Hnear');
        destruct (Session.receiveSendLoop fd m script q) as [[exit p'] evs]
  end.
  cbn [fst snd] in IH |- *.
  replace (n + Z.of_nat (S (length script))) with (n + 1 + Z.of_nat (length script))
    by lia.
  exact IH.
Qed.

Lemma runConnectionLoop_near script p n :
  0 <= n -> n + Z.of_nat (requests script) < 16777000 ->
  near n (hero (Session.world p)) ->
  near (n + Z.of_nat (requests script))
       (hero (Session.world (snd (fst (Session.runConnectionLoop script p))))).
Proof.
  revert p n. induction script as [|a script IH]; intros p n Hn Hb Hnear;
    cbn [Session.runConnectionLoop].
  { cbn [fst snd]. apply (near_mono n); [lia|exact Hnear]. }
  change (requests (a :: script))
    with (length (Session.reads a) + requests script)%nat in Hb |- *.
  assert (Hkeep : near (n + Z.of_nat (length (Session.reads a) + requests script))
                       (hero (Session.world p)))
    by (apply (near_mono n); [lia|exact Hnear]).
  destruct (Session.acceptedFd a =? -1); [exact Hkeep|].
  pose proof (receiveSendLoop_near (Session.acceptedFd a) (Session.now p)
                (Session.reads a) p n Hn ltac:(lia) Hnear) as Hs.
  unfold Session.runReceiveSendLoop.
  destruct (Session.receiveSendLoop _ _ _ p) as [[exit p'] evs].
  cbn [fst snd] in Hs.
  assert (Hs' : near (n + Z.of_nat (length (Session.reads a) + requests script))
                     (hero (Session.world p')))
    by (apply (near_mono (n + Z.of_nat (length (Session.reads a)))); [lia|exact Hs]).
  destruct exit; cbn [fst snd]; try exact Hs'.
  specialize (IH p' (n + Z.of_nat (length (Session.reads a))) ltac:(lia) ltac:(lia) Hs).
  destruct (Session.runConnectionLoop script p') as [[exit' p''] evs'].
  cbn [fst snd] in IH |- *.
  replace (n + Z.of_nat (length (Session.reads a) + requests script))
    with (n + Z.of_nat (length (Session.reads a)) + Z.of_nat (requests script))
    by lia.
  exact IH.
Qed.

(** X18. The hero never leaves the grid. From the initial state, after
    any run of [runConnectionLoop] that makes fewer than 16777000 calls
    of [recv] in all, however it ends, the position of the hero is
    exactly [(8 i, 8 j)] for integers [i] and [j], each at most as far
    from the centre cell 16 as there were calls of [recv]. *)
Theorem hero_stays_on_grid (script : list Session.Accept) (t0 : Z) :
  Z.of_nat (requests script) < 16777000 ->
  exists i j,
    hero (Session.world
            (snd (fst (Session.runConnectionLoop script
                         {| Session.world := World_init; Session.now := t0 |}))))
    = at_cell i j
    /\ Z.abs (i - 16) <= Z.of_nat (requests script)
    /\ Z.abs (j - 16) <= Z.of_nat (requests script).
Proof.
  intros Hb.
  apply (runConnectionLoop_near script
           {| Session.world := World_init; Session.now := t0 |} 0); [lia|lia|].
  exists 16, 16. repeat split; try lia.
Qed.

Lemma hero_stays_on_grid_witness :
  exists i j,
    hero (Session.world
            (snd (fst (Session.runConnectionLoop
                         [{| Session.acceptedFd := 4;
                             Session.reads :=
                               [{| Session.readSize := 3; Session.buffer := "GET";
                                   Session.elapsed := 0; Session.overslept := 0 |}] |}]
                         {| Session.world := World_init; Session.now := 0 |}))))
    = at_cell i j
    /\ Z.abs (i - 16)
       <= Z.of_nat (requests
                      [{| Session.acceptedFd := 4;
                          Session.reads :=
                            [{| Session.readSize := 3; Session.buffer := "GET";
                                Session.elapsed := 0; Session.overslept := 0 |}] |}])
    /\ Z.abs (j - 16)
       <= Z.of_nat (requests
                      [{| Session.acceptedFd := 4;
                          Session.reads :=
                            [{| Session.readSize := 3; Session.buffer := "GET";
                                Session.elapsed := 0; Session.overslept := 0 |}] |}]).
Proof.
  apply (hero_stays_on_grid
           [{| Session.acceptedFd := 4;
               Session.reads :=
                 [{| Session.readSize := 3; Session.buffer := "GET";
                     Session.elapsed := 0; Session.overslept := 0 |}] |}] 0).
  vm_compute. reflexivity.
Defined.

(** ** Set-up and exit status *)



(** ** One round of the protocol *)

Lemma line_keeps_prefix (pat request line : string) :
  Forall (fun a => a <> CR) (list_ascii_of_string pat) ->
  Z.of_nat (String.length request) < SizeT.modulus ->
  getRequestLine request = Ok line ->
  starts_with pat request -> starts_with pat line.
Proof.
  intros Hpat Hsize Hl [r Hr].
  destruct (getRequestLine_split request Hsize) as [line' [Hl' [_ Hcut]]].
  rewrite Hl in Hl'. injection Hl' as <-.
  destruct Hcut as [[rest Hrest]|[-> _]]; [|exists r; exact Hr].
  rewrite Hr in Hrest. clear Hr Hl Hsize request.
  revert line Hrest. induction pat as [|a pat IH]; intros line Hrest.
  - exists line. reflexivity.
  - cbn [list_ascii_of_string] in Hpat. inversion Hpat as [|? ? Ha Hpat']; subst.
    destruct line as [|b line]; cbn [append] in Hrest.
    + injection Hrest as Hab _. contradiction.
    + injection Hrest as <- Hrest. destruct (IH Hpat' line Hrest) as [l ->].
      exists l. reflexivity.
Qed.

(** X20. One round of the game, end to end. A request whose first line
    begins with POST / , whose first CRLF CRLF ends [head] and whose body
    is the key state the page sends, handled with the hero at cell
    [(i, j)]: [createResponse] returns the 200 header with the length of
    the frame text, a blank line and the frame text; the hero has moved
    by the keys held down; the frame is black but for the hero's red
    square. *)
Theorem post_renders_frame (head : string) (down : list nat) (w : World)
        (i j : Z) :
  let request := (head ++ (CRLF ++ CRLF) ++ keyStateBody down)%string in
  Z.of_nat (String.length request) < SizeT.modulus ->
  starts_with "POST / " head ->
  (forall n, (n < String.length head)%nat ->
             substring n 4 request <> (CRLF ++ CRLF)%string) ->
  Canvas.wf (canvas w) ->
  hero w = at_cell i j ->
  -8388607 < i < 8388608 -> -8388607 < j < 8388608 ->
  let i' := i - Z.b2z (held down ArrowLeft) + Z.b2z (held down ArrowRight) in
  let j' := j - Z.b2z (held down ArrowUp) + Z.b2z (held down ArrowDown) in
  exists cv,
    createResponse request w
    = Ok ((createResponseHeader (Z.of_nat (String.length (Canvas.toString cv)))
           ++ CRLF ++ Canvas.toString cv)%string,
          {| canvas := cv; hero := at_cell i' j' |})
    /\ Canvas.wf cv
    /\ forall p, Canvas.inside p ->
         pixel cv p =
         if (8 * i' - 4 <=? fst p) && (fst p <? 8 * i' + 4)
            && (8 * j' - 4 <=? snd p) && (snd p <? 8 * j' + 4)
         then [255; 0; 0; 255] else [0; 0; 0; 255].
Proof.
  intros request Hsize Hpost Hfirst Hwf Hh Hi Hj i' j'.
  destruct (getRequestLine_total request) as [line Hl].
  assert (Hreq : starts_with "POST / " request).
  { destruct Hpost as [r ->].
    exists (r ++ (CRLF ++ CRLF) ++ keyStateBody down)%string.
    unfold request. reflexivity. }
  assert (Hline : starts_with "POST / " line).
  { apply (line_keeps_prefix "POST / " request line); try assumption.
    repeat constructor; discriminate. }
  assert (Hline4 : starts_with "POST" line).
  { destruct Hline as [r ->]. exists (" / " ++ r)%string. reflexivity. }
  assert (Hbody : getRequestBody request = Ok (keyStateBody down)).
  { exact (getRequestBody_after_separator head (keyStateBody down) line
             Hsize Hfirst Hl Hline4). }
  assert (Hnget : (find line "GET / " =? 0) = false).
  { destruct (find line "GET / " =? 0) eqn:E; [|reflexivity].
    apply find_zero_dec in E. destruct E as [r1 ->].
    destruct Hline as [r2 H]. discriminate. }
  apply find_zero_dec in Hline.
  assert (Hlen : 41 <= Z.of_nat (String.length (keyStateBody down)))
    by apply keyStateBody_long.
  pose proof (update_on_grid (keyStateBody down) w i j Hwf Hlen Hh Hi Hj) as Hu.
  cbv zeta in Hu. rewrite !keyStateBody_pressed in Hu.
  destruct Hu as [cv [Hu [Hwf' Hpix]]].
  exists cv. split; [|split; assumption].
  unfold createResponse, createResponseBody. rewrite Hl. cbn [bind].
  rewrite Hnget, Hline, Hbody. cbn [bind]. rewrite Hu. cbn [bind fst snd].
  reflexivity.
Qed.

Lemma post_renders_frame_witness :
  exists cv,
    createResponse
      (("POST / HTTP/1.1" ++ CRLF ++ "Host: x") ++ (CRLF ++ CRLF)
         ++ keyStateBody [39%nat])
      {| canvas := Canvas.make; hero := at_cell 16 16 |}
    = Ok ((createResponseHeader (Z.of_nat (String.length (Canvas.toString cv)))
           ++ CRLF ++ Canvas.toString cv)%string,
          {| canvas := cv;
             hero := at_cell
                       (16 - Z.b2z (held [39%nat] ArrowLeft)
                        + Z.b2z (held [39%nat] ArrowRight))
                       (16 - Z.b2z (held [39%nat] ArrowUp)
                        + Z.b2z (held [39%nat] ArrowDown)) |})
    /\ Canvas.wf cv
    /\ forall p, Canvas.inside p ->
         pixel cv p =
         if (8 * (16 - Z.b2z (held [39%nat] ArrowLeft)
                  + Z.b2z (held [39%nat] ArrowRight)) - 4 <=? fst p)
            && (fst p <? 8 * (16 - Z.b2z (held [39%nat] ArrowLeft)
                              + Z.b2z (held [39%nat] ArrowRight)) + 4)
            && (8 * (16 - Z.b2z (held [39%nat] ArrowUp)
                     + Z.b2z (held [39%nat] ArrowDown)) - 4 <=? snd p)
            && (snd p <? 8 * (16 - Z.b2z (held [39%nat] ArrowUp)
                              + Z.b2z (held [39%nat] ArrowDown)) + 4)
         then [255; 0; 0; 255] else [0; 0; 0; 255].
Proof.
  apply (post_renders_frame ("POST / HTTP/1.1" ++ CRLF ++ "Host: x") [39%nat]
           {| canvas := Canvas.make; hero := at_cell 16 16 |} 16 16).
  - vm_compute. reflexivity.
  - apply prefix_starts_with. reflexivity.
  - intros n Hn H.
    do 24 (destruct n as [|n]; [vm_compute in H; discriminate H|]).
    vm_compute in Hn. lia.
  - exact make_wf.
  - reflexivity.
  - lia.
  - lia.
Defined.
